(** * healthAI backend: symptom detection, gap analysis and the interview pipeline

    A shallow embedding of [backend/app.py].  Python values are rendered as
    follows.

    - [str] is [string]; the text functions used by the program
      ([lower], [replace], [strip], [split], [in], slicing) are written out
      on the ASCII range, which is where symptom ids, transcripts of English
      speech and numbered question lines live.  Beyond it [str.lower] is no
      map over the characters; a statement that needs it to be one is
      stated for ASCII text.
    - [dict] is an insertion-ordered association list with unique keys
      ([PyDict]); [d[k] = v] keeps the position of an existing key.
    - [list(set(l))] is [elements] of a [gset]: a duplicate-free
      enumeration whose order is not the program's to choose.  Python's
      order depends on the hashes and on the order of insertion, so the
      statements speak of what the list holds, never of its order.
    - A Flask handler returns a JSON object and a status code; the object
      is the dictionary handed to [jsonify], whose key order the serialised
      answer need not keep, so objects are compared by their lookups; the external
      services (AssemblyAI, Gemini) are oracles, and every call to one is
      recorded in a trace, as is the start of each numbered step of the
      pipeline.  An exception is its message ([str(e)]). *)

From Stdlib Require Import Ascii String.
From Stdlib.Strings Require Import Byte.
From stdpp Require Import base option list strings pretty gmap.

(** ** Text *)

Module PyStr.

Definition code (c : ascii) : nat := nat_of_ascii c.

(** [c.isupper()] and [c.lower()] on ASCII. *)
Definition is_upper (c : ascii) : bool :=
  (65 <=? code c)%nat && (code c <=? 90)%nat.

Definition lower_char (c : ascii) : ascii :=
  if is_upper c then ascii_of_nat (code c + 32) else c.

(** [c.isdigit()] on ASCII. *)
Definition isdigit (c : ascii) : bool :=
  (48 <=? code c)%nat && (code c <=? 57)%nat.

(** [c.isspace()] on ASCII: tab, line feed, vertical tab, form feed,
    carriage return, the four separators 28..31 and the space. *)
Definition isspace (c : ascii) : bool :=
  ((9 <=? code c)%nat && (code c <=? 13)%nat)
  || ((28 <=? code c)%nat && (code c <=? 32)%nat).

Fixpoint map_chars (f : ascii → ascii) (s : string) : string :=
  match s with
  | EmptyString => EmptyString
  | String c s' => String (f c) (map_chars f s')
  end.

(** [s.lower()] *)
Definition lower (s : string) : string := map_chars lower_char s.

(** [s.replace(a, b)] for single characters [a] and [b]. *)
Definition replace (a b : ascii) (s : string) : string :=
  map_chars (λ c, if decide (c = a) then b else c) s.

(** [s.startswith(p)] *)
Fixpoint startswith (p s : string) : bool :=
  match p, s with
  | EmptyString, _ => true
  | String _ _, EmptyString => false
  | String a p', String b s' => bool_decide (a = b) && startswith p' s'
  end.

(** [p in s]: a scan for the first position where [p] starts. *)
Fixpoint contains (p s : string) : bool :=
  match s with
  | EmptyString => startswith p s
  | String _ s' => startswith p s || contains p s'
  end.

(** [s.lstrip()], [s.rstrip()], [s.strip()] *)
Fixpoint lstrip (s : string) : string :=
  match s with
  | EmptyString => EmptyString
  | String c s' => if isspace c then lstrip s' else s
  end.

Fixpoint rstrip (s : string) : string :=
  match s with
  | EmptyString => EmptyString
  | String c s' =>
      match rstrip s' with
      | EmptyString => if isspace c then EmptyString else String c EmptyString
      | r => String c r
      end
  end.

Definition strip (s : string) : string := rstrip (lstrip s).

(** [s.split(sep)] for a single character: always at least one piece. *)
Fixpoint split (sep : ascii) (s : string) : list string :=
  match s with
  | EmptyString => [EmptyString]
  | String c s' =>
      if decide (c = sep) then EmptyString :: split sep s'
      else match split sep s' with
           | h :: t => String c h :: t
           | [] => [String c EmptyString]
           end
  end.

(** [s.split(sep, 1)]: cut at the first [sep] only. *)
Fixpoint split1 (sep : ascii) (s : string) : list string :=
  match s with
  | EmptyString => [EmptyString]
  | String c s' =>
      if decide (c = sep) then [EmptyString; s']
      else match split1 sep s' with
           | h :: t => String c h :: t
           | [] => [String c EmptyString]
           end
  end.

(** [s[:n]] *)
Fixpoint slice_to (n : nat) (s : string) : string :=
  match n, s with
  | O, _ => EmptyString
  | _, EmptyString => EmptyString
  | S n', String c s' => String c (slice_to n' s')
  end.

(** [sep.join(l)] *)
Fixpoint join (sep : string) (l : list string) : string :=
  match l with
  | [] => EmptyString
  | [x] => x
  | x :: l' => x +:+ sep +:+ join sep l'
  end.

(** What "occurs as a contiguous substring" means. *)
Definition occurs_in (p s : string) : Prop :=
  ∃ a b : string, s = a +:+ p +:+ b.

End PyStr.

(** ** Dictionaries *)

Module PyDict.

Definition dict (V : Type) : Type := list (string * V).

(** [d.get(k)] ([None] when the key is absent). *)
Fixpoint get {V} (k : string) (d : dict V) : option V :=
  match d with
  | [] => None
  | (k', v) :: d' => if decide (k = k') then Some v else get k d'
  end.

(** [d[k] = v] *)
Fixpoint setitem {V} (k : string) (v : V) (d : dict V) : dict V :=
  match d with
  | [] => [(k, v)]
  | (k', v') :: d' =>
      if decide (k = k') then (k, v) :: d' else (k', v') :: setitem k v d'
  end.

(** [d.keys()], in iteration order. *)
Definition keys {V} (d : dict V) : list string := d.*1.

(** Python's [d1 == d2]: same keys, same values, whatever the order. *)
Definition same {V} (d1 d2 : dict V) : Prop := ∀ k, get k d1 = get k d2.

End PyDict.

Import PyStr PyDict.

(** ** The knowledge base *)

(** One entry of [knowledge_base['symptoms']]. *)
Record symptom_spec := { required_checks : list string }.

(** ** Keyword detection ([extract_symptoms] 160-165, [process_interview] 310-316) *)

Definition symptom_display (symptom_key : string) : string :=
  replace "_"%char " "%char symptom_key.

(** One turn of the loop over [knowledge_base['symptoms'].keys()]. *)
Definition detect_step (transcript_lower : string)
    (detected_symptoms : list string) (symptom_key : string) : list string :=
  if contains (symptom_display symptom_key) transcript_lower
  then detected_symptoms ++ [symptom_key]
  else detected_symptoms.

Definition detect (symptoms : dict symptom_spec) (transcript : string)
    : list string :=
  let transcript_lower := lower transcript in
  foldl (detect_step transcript_lower) [] (keys symptoms).

(** ** Gap analysis *)

(** [[check for check in required if check not in covered]] *)
Definition missing_checks_of (required covered : list string) : list string :=
  filter (λ check, check ∉ covered) required.

(** One turn of the loop of [gap_analysis] (195-203) over
    [detected_symptoms]; the state is [(gaps, missing_checks_list)]. *)
Definition gap_step (symptoms : dict symptom_spec)
    (covered_fields : dict (list string))
    (st : dict (list string) * list string) (symptom : string)
    : dict (list string) * list string :=
  let '(gaps, missing_checks_list) := st in
  match get symptom symptoms with
  | Some entry =>
      let required := required_checks entry in
      let covered := default [] (get symptom covered_fields) in
      let missing := missing_checks_of required covered in
      match missing with
      | [] => st
      | _ :: _ => (setitem symptom missing gaps, missing_checks_list ++ missing)
      end
  | None => st
  end.

Definition gap_loop (symptoms : dict symptom_spec)
    (covered_fields : dict (list string)) (detected_symptoms : list string)
    : dict (list string) * list string :=
  foldl (gap_step symptoms covered_fields) ([], []) detected_symptoms.

(** [list(set(l))]: the elements of [l], each once.  The order stands for
    whichever order the set yields and carries no meaning. *)
Definition list_of_set (l : list string) : list string :=
  elements (list_to_set l : gset string).

(** One turn of the loop of step 3 of [process_interview] (318-323):
    no coverage, the required checks are taken as they are. *)
Definition initial_gap_step (symptoms : dict symptom_spec)
    (gaps : dict (list string)) (symptom : string) : dict (list string) :=
  match get symptom symptoms with
  | Some entry => setitem symptom (required_checks entry) gaps
  | None => gaps
  end.

Definition initial_gaps (symptoms : dict symptom_spec)
    (detected_symptoms : list string) : dict (list string) :=
  foldl (initial_gap_step symptoms) [] detected_symptoms.

(** ** Requests and responses *)

(** The JSON values that occur in the bodies of the modelled handlers. *)
Inductive json :=
  | JBool (b : bool)
  | JStr (s : string)
  | JList (l : list string)
  | JDict (d : dict (list string)).

(** [jsonify({...}), status]: the dictionary handed to [jsonify] and the
    status code.  [jsonify] may sort the keys of an object when it
    serialises it; the order of the list does not speak of that. *)
Definition response : Type := dict json * nat.

Definition body (r : response) : dict json := r.1.
Definition status (r : response) : nat := r.2.

(** [request.json] of the POST handlers: a key is either absent or holds a
    value of the documented type. *)
Record request_json := {
  detected_symptoms : option (list string);
  covered_fields : option (dict (list string));
  gaps : option (dict (list string));
  transcript : option string
}.

(** [gap_analysis] (181-216).  With a request of this type no operation of
    the body raises, so the [except] branch is not reachable. *)
Definition gap_analysis (symptoms : dict symptom_spec) (data : request_json)
    : response :=
  let detected_symptoms := default [] (detected_symptoms data) in
  let covered_fields := default [] (covered_fields data) in
  let '(gaps, missing_checks_list) :=
    gap_loop symptoms covered_fields detected_symptoms in
  ([("success", JBool true);
    ("gaps", JDict gaps);
    ("missing_checks", JList (list_of_set missing_checks_list));
    ("detected_symptoms", JList detected_symptoms)], 200).

(** ** Effects: exceptions and the trace of external calls *)

Inductive event :=
  | Step (n : nat)                    (* "# Step n" of [process_interview] *)
  | CallTranscriber (audio : list byte) (* [transcriber.transcribe] *)
  | CallGemini (prompt : string).     (* [model.generate_content] *)

Inductive result (A : Type) :=
  | Ok (a : A)
  | Raised (e : string).
Arguments Ok {A} a.
Arguments Raised {A} e.

Definition M (A : Type) : Type := list event → result A * list event.

#[global] Instance M_ret : MRet M := λ A a tr, (Ok a, tr).

#[global] Instance M_bind : MBind M := λ A B f m tr,
  match m tr with
  | (Ok a, tr') => f a tr'
  | (Raised e, tr') => (Raised e, tr')
  end.

Definition raise {A} (e : string) : M A := λ tr, (Raised e, tr).

Definition emit (ev : event) : M unit := λ tr, (Ok tt, tr ++ [ev]).

(** A value or an exception computed without effects. *)
Definition lift {A} (r : result A) : M A := λ tr, (r, tr).

(** [try: m  except Exception as e: h e] *)
Definition try_except {A} (m : M A) (h : string → M A) : M A := λ tr,
  match m tr with
  | (Ok a, tr') => (Ok a, tr')
  | (Raised e, tr') => h e tr'
  end.

Fixpoint foldM {A B} (f : B → A → M B) (b : B) (l : list A) : M B :=
  match l with
  | [] => mret b
  | a :: l' => b' ← f b a; foldM f b' l'
  end.

(** [run m]: the handler's answer and the calls it made, from an empty trace. *)
Definition run {A} (m : M A) : result A * list event := m [].

(** ** The external services *)

(** What [transcriber.transcribe] hands back: a transcript whose status is
    [error], or one with its [text] (which may be [None]). *)
Inductive aai_transcript :=
  | AaiError (error : string)
  | AaiDone (text : option string).

(** What [model.generate_content] hands back; reading [.text] raises when
    the answer holds no text. *)
Record gemini_response := { text : result string }.

Record world := {
  symptoms : dict symptom_spec;  (* [knowledge_base['symptoms']] *)
  transcriber_transcribe : list byte → result aai_transcript;
  generate_content : string → result gemini_response;
  json_dumps : dict (list string) → string  (* [json.dumps(_, indent=2)] *)
}.

Definition call_transcriber (w : world) (audio : list byte)
    : M aai_transcript :=
  emit (CallTranscriber audio);; lift (transcriber_transcribe w audio).

Definition call_gemini (w : world) (prompt : string) : M gemini_response :=
  emit (CallGemini prompt);; lift (generate_content w prompt).

(** [transcribe_audio] (54-80): [None] on an error status and on any
    exception. *)
Definition transcribe_audio (w : world) (audio_bytes : list byte)
    : M (option string) :=
  try_except
    (transcript ← call_transcriber w audio_bytes;
     match transcript with
     | AaiError _ => mret None
     | AaiDone text => mret text
     end)
    (λ _, mret None).

(** ** Prompts *)

Definition nl : string := String (ascii_of_nat 10) EmptyString.
Definition dquote : string := String (ascii_of_nat 34) EmptyString.

Definition concat_str (l : list string) : string := foldr String.append EmptyString l.

Definition reported (detected_symptoms : list string) : string :=
  join ", " (symptom_display <$> detected_symptoms).

(** The f-string of [generate_questions] (238-250). *)
Definition questions_prompt (w : world) (detected_symptoms : list string)
    (gaps : dict (list string)) (transcript : string) : string :=
  concat_str [
    "You are a clinical assistant helping a doctor during a patient interview."; nl;
    nl;
    "Patient's reported symptoms: "; reported detected_symptoms; nl;
    nl;
    "Patient's transcript: "; dquote; transcript; dquote; nl;
    nl;
    "Critical diagnostic information still needed:"; nl;
    json_dumps w gaps; nl;
    nl;
    "Generate exactly 3-5 important follow-up questions the doctor should ask to complete the diagnostic assessment. "; nl;
    "Format each question on a new line, starting with a number (e.g., ";
      dquote; "1. Question here?"; dquote; ")."; nl;
    "Focus on the most critical missing information."; nl;
    "Be direct and clinical." ].

(** The f-string of [process_interview] (326-337). *)
Definition interview_prompt (w : world) (detected_symptoms : list string)
    (gaps : dict (list string)) (transcript : string) : string :=
  concat_str [
    "You are a clinical assistant helping a doctor during a patient interview."; nl;
    nl;
    "Patient's reported symptoms: "; reported detected_symptoms; nl;
    nl;
    "Patient's transcript: "; dquote; transcript; dquote; nl;
    nl;
    "Critical diagnostic information needed:"; nl;
    json_dumps w gaps; nl;
    nl;
    "Generate exactly 3-5 important follow-up questions the doctor should ask. "; nl;
    "Format each question on a new line, numbered (e.g., ";
      dquote; "1. Question?"; dquote; ")."; nl;
    "Be direct and clinical." ].

(** ** Parsing the generated text *)

(** [line[0]] *)
Definition first_char (line : string) : M ascii :=
  match line with
  | String c _ => mret c
  | EmptyString => raise "string index out of range"
  end.

(** [parts[i]] *)
Definition item (i : nat) (parts : list string) : M string :=
  match parts !! i with
  | Some p => mret p
  | None => raise "list index out of range"
  end.

(** [bool(s)] *)
Definition nonempty (s : string) : bool :=
  match s with EmptyString => false | String _ _ => true end.

(** The body of the loop over the lines (260-267 and 344-350). *)
Definition parse_line (questions : list string) (line : string)
    : M (list string) :=
  let line := strip line in
  if nonempty line && (5 <? String.length line)%nat then
    c ← first_char line;
    line ← (if isdigit c && contains "." (slice_to 3 line)
            then rest ← item 1 (split1 "."%char line); mret (strip rest)
            else mret line);
    if nonempty line then mret (questions ++ [line]) else mret questions
  else mret questions.

Definition parse_questions (response_text : string) : M (list string) :=
  foldM parse_line [] (split (ascii_of_nat 10) (strip response_text)).

(** ** The handlers *)

(** [generate_questions] (219-283). *)
Definition generate_questions (w : world) (data : request_json) : M response :=
  try_except
    (let detected_symptoms := default [] (detected_symptoms data) in
     let gaps := default [] (gaps data) in
     let transcript := default EmptyString (transcript data) in
     match detected_symptoms, gaps with
     | _ :: _, _ :: _ =>
         let prompt := questions_prompt w detected_symptoms gaps transcript in
         response ← call_gemini w prompt;
         response_text ← lift (text response);
         questions ← parse_questions response_text;
         let questions :=
           match questions with
           | [] => ["What other symptoms are you experiencing?"]
           | _ :: _ => questions
           end in
         mret ([("success", JBool true);
                ("questions", JList (take 5 questions))], 200)
     | _, _ =>
         mret ([("success", JBool true);
                ("questions",
                 JList ["Please provide more information about your symptoms"])],
               200)
     end)
    (λ e,
       mret ([("success", JBool false);
              ("error", JStr e);
              ("questions", JList ["Unable to generate questions at this time"])],
             200)).

(** [process_interview] (286-365); [audio] is [request.files.get('audio')]
    already read. *)
Definition process_interview (w : world) (audio : option (list byte))
    : M response :=
  try_except
    (match audio with
     | None => mret ([("error", JStr "No audio file provided")], 400)
     | Some audio_bytes =>
         emit (Step 1);;
         transcript ← transcribe_audio w audio_bytes;
         match transcript with
         | None | Some EmptyString =>
             mret ([("success", JBool false);
                    ("error", JStr "Failed to transcribe audio. Check your AssemblyAI API key and internet connection.")],
                   500)
         | Some transcript =>
             emit (Step 2);;
             let detected_symptoms := detect (symptoms w) transcript in
             emit (Step 3);;
             let gaps := initial_gaps (symptoms w) detected_symptoms in
             emit (Step 4);;
             let prompt := interview_prompt w detected_symptoms gaps transcript in
             gemini_response ← call_gemini w prompt;
             response_text ← lift (text gemini_response);
             questions ← parse_questions response_text;
             mret ([("success", JBool true);
                    ("transcript", JStr transcript);
                    ("detected_symptoms", JList detected_symptoms);
                    ("diagnostic_gaps", JDict gaps);
                    ("gaps", JDict gaps);
                    ("suggested_questions", JList (take 5 questions))], 200)
         end
     end)
    (λ e, mret ([("success", JBool false); ("error", JStr e)], 500)).

(** ** Sample data *)

Module Sample.

(** The knowledge base of the specification's examples, with one more
    symptom that has nothing to check. *)
Definition kb : dict symptom_spec :=
  [("chest_pain", {| required_checks := ["duration"; "severity"; "radiation"] |});
   ("fever", {| required_checks := ["duration"; "temperature"] |});
   ("rash", {| required_checks := [] |})].

Definition heard : string := "I have chest pain and a mild fever".

(** A world in which the audio is transcribed to [heard] and the text
    generator behaves as [g] says. *)
Definition world_with (g : string → result gemini_response) : world :=
  {| symptoms := kb;
     transcriber_transcribe := λ _, Ok (AaiDone (Some heard));
     generate_content := g;
     json_dumps := λ _, "{}" |}.

(** The text generator is down. *)
Definition gemini_down : world := world_with (λ _, Raised "503 unavailable").

(** The text generator answers, in too few characters to hold a question. *)
Definition gemini_terse : world := world_with (λ _, Ok {| text := Ok "None." |}).

(** The transcriber reports an error. *)
Definition deaf : world :=
  {| symptoms := kb;
     transcriber_transcribe := λ _, Ok (AaiError "unsupported audio");
     generate_content := λ _, Ok {| text := Ok "1. How long has it lasted?" |};
     json_dumps := λ _, "{}" |}.

End Sample.

(** ** Notions used in the statements *)

(** The checks of [s] that gap analysis finds missing under coverage [C];
    nothing for a symptom the knowledge base does not know. *)
Definition missing_for (K : dict symptom_spec) (C : dict (list string))
    (s : string) : list string :=
  match get s K with
  | Some entry =>
      missing_checks_of (required_checks entry) (default [] (get s C))
  | None => []
  end.

(** The body of a POST to [/gap-analysis]. *)
Definition analysis_request (D : list string) (C : dict (list string))
    : request_json :=
  {| detected_symptoms := Some D; covered_fields := Some C;
     gaps := None; transcript := None |}.

(** The body of a POST to [/generate-questions]. *)
Definition questions_request (D : list string) (G : dict (list string))
    (T : string) : request_json :=
  {| detected_symptoms := Some D; covered_fields := None;
     gaps := Some G; transcript := Some T |}.

(** The shape of a successful answer of [gap_analysis]. *)
Definition analysis_response (g : dict (list string)) (m D : list string)
    : response :=
  ([("success", JBool true);
    ("gaps", JDict g);
    ("missing_checks", JList m);
    ("detected_symptoms", JList D)], 200).

(** What the parsing loop makes of one line of the generated text: the
    stripped line when it is longer than 5 characters, cut after its first
    dot when it starts with a digit and has a dot among its first three
    characters. *)
Definition strip_numbering (line : string) : string :=
  match line with
  | String c _ =>
      if isdigit c && contains "." (slice_to 3 line)
      then strip (default EmptyString (split1 "."%char line !! 1))
      else line
  | EmptyString => line
  end.

Definition question_of_line (line : string) : option string :=
  let line := strip line in
  if nonempty line && (5 <? String.length line)%nat
  then (let q := strip_numbering line in if nonempty q then Some q else None)
  else None.

Definition questions_of_text (response_text : string) : list string :=
  omap question_of_line (split (ascii_of_nat 10) (strip response_text)).

(** The transcriber gives nothing usable for [audio]: it raises, reports an
    error status, or has no text or an empty one. *)
Definition transcription_fails (w : world) (audio : list byte) : Prop :=
  match transcriber_transcribe w audio with
  | Ok (AaiDone (Some (String _ _))) => False
  | _ => True
  end.

(** The transcriber hears the non-empty text [t] in [audio]. *)
Definition transcribed (w : world) (audio : list byte) (t : string) : Prop :=
  transcriber_transcribe w audio = Ok (AaiDone (Some t)) ∧ t ≠ EmptyString.

(** The text generator fails on [prompt] with [e]: the call raises, or its
    answer holds no text. *)
Definition generation_fails (w : world) (prompt e : string) : Prop :=
  generate_content w prompt = Raised e
  ∨ ∃ r, generate_content w prompt = Ok r ∧ text r = Raised e.

(** The text generator answers [prompt] with the text [txt]. *)
Definition generation_returns (w : world) (prompt txt : string) : Prop :=
  ∃ r, generate_content w prompt = Ok r ∧ text r = Ok txt.

(** The prompt that [process_interview] builds from the transcript [t]. *)
Definition prompt_of_transcript (w : world) (t : string) : string :=
  let detected := detect (symptoms w) t in
  interview_prompt w detected (initial_gaps (symptoms w) detected) t.

(** The calls of a pipeline run that reaches the text generator. *)
Definition full_trace (w : world) (audio : list byte) (t : string)
    : list event :=
  [Step 1; CallTranscriber audio; Step 2; Step 3; Step 4;
   CallGemini (prompt_of_transcript w t)].

(** "The pipeline still reports success, substituting the single fallback
    question, and never surfaces the collaborator's error", read on
    [process_interview]. *)
Definition degrades_to_fallback (w : world) (audio : list byte) : Prop :=
  ∃ r tr, run (process_interview w (Some audio)) = (Ok r, tr)
    ∧ get "success" (body r) = Some (JBool true)
    ∧ get "error" (body r) = None
    ∧ ∃ q, get "suggested_questions" (body r) = Some (JList [q]).

(** "A failed or empty transcription is the one fatal pipeline error", read
    on [process_interview]: a run that reports failure is a run whose
    transcription failed. *)
Definition only_transcription_is_fatal (w : world) (audio : list byte)
    : Prop :=
  ∀ r tr, run (process_interview w (Some audio)) = (Ok r, tr)
    → get "success" (body r) = Some (JBool false)
    → transcription_fails w audio.

(** "[analyze(D, {}, K)[s] == K[s].required_checks] for every [s] in
    [D ∩ keys(K)]", read on [gap_analysis] called with an empty coverage. *)
Definition empty_coverage_verbatim (K : dict symptom_spec) (D : list string)
    : Prop :=
  ∃ g m, gap_analysis K (analysis_request D []) = analysis_response g m D
    ∧ ∀ s entry, s ∈ D → get s K = Some entry
        → get s g = Some (required_checks entry).

(** ** The other handlers *)

(** [any(f(c) for c in s)] *)
Fixpoint any_char (f : ascii → bool) (s : string) : bool :=
  match s with
  | EmptyString => false
  | String c s' => f c || any_char f s'
  end.

(** JSON values in general, for the handlers whose bodies nest objects;
    numbers are the integers. *)
#[warnings="-register-all"]
Inductive jv :=
  | JNull
  | JB (b : bool)
  | JN (n : Z)
  | JS (s : string)
  | JA (l : list jv)
  | JO (o : list (string * jv)).

Definition vresponse : Type := dict jv * nat.

(** One element of [doc.ents]. *)
Record entity := {
  ent_text : string;
  ent_label : string;
  ent_start_char : Z;
  ent_end_char : Z
}.

(** What the process holds besides the knowledge base and the two external
    services: the spaCy model ([None] when it could not be loaded), the
    environment, the clock, and [str] on values that are no strings. *)
Record services := {
  nlp : option (string → result (list entity));
  getenv : string → option string;
  time_time : Z;                     (* [int(time.time())] *)
  time_strftime : string → string;   (* [time.strftime(fmt)] *)
  str_of_value : jv → string
}.

(** [str(v)] *)
Definition py_str (sv : services) (v : jv) : string :=
  match v with
  | JS s => s
  | _ => str_of_value sv v
  end.

(** [x is not None], as a JSON boolean. *)
Definition is_not_none {A} (x : option A) : jv :=
  JB (match x with Some _ => true | None => false end).

(** [health] (85-94). *)
Definition health (sv : services) : vresponse :=
  ([("status", JS "healthy");
    ("spacy_model_loaded", is_not_none (nlp sv));
    ("symptom_extraction",
     JS (match nlp sv with Some _ => "spacy" | None => "keyword_matching" end));
    ("speech_to_text", JS "assemblyai");
    ("gemini_configured", is_not_none (getenv sv "GEMINI_API_KEY"));
    ("assemblyai_configured", is_not_none (getenv sv "ASSEMBLYAI_API_KEY"))],
   200).

(** The module never binds [openai_client]: reading the name raises. *)
Definition openai_client : M Empty_set :=
  raise "name 'openai_client' is not defined".

(** [transcribe] (97-124); [audio] is [request.files.get('audio')]. *)
Definition transcribe (audio : option (list byte)) : M response :=
  try_except
    (match audio with
     | None => mret ([("error", JStr "No audio file provided")], 400)
     | Some audio_file =>
         openai_client ≫=
           λ client : Empty_set, match client return M response with end
     end)
    (λ e, mret ([("success", JBool false); ("error", JStr e)], 500)).

(** [d[k]], which raises [KeyError] on an absent key. *)
Definition getitem {V} (k : string) (d : dict V) : M V :=
  match get k d with
  | Some v => mret v
  | None => raise ("'" +:+ k +:+ "'")
  end.

(** The dictionary appended to [entities[ent.label_]] (153-158). *)
Definition entity_json (ent : entity) : jv :=
  JO [("text", JS (ent_text ent));
      ("label", JS (ent_label ent));
      ("start", JN (ent_start_char ent));
      ("end", JN (ent_end_char ent))].

(** One turn of the loop over [doc.ents] (150-158). *)
Definition group_entity (entities : dict (list jv)) (ent : entity)
    : M (dict (list jv)) :=
  let entities :=
    match get (ent_label ent) entities with
    | None => setitem (ent_label ent) [] entities
    | Some _ => entities
    end in
  group ← getitem (ent_label ent) entities;
  mret (setitem (ent_label ent) (group ++ [entity_json ent]) entities).

Definition entities_json (entities : dict (list jv)) : jv :=
  JO (prod_map id JA <$> entities).

(** [extract_symptoms] (127-178). *)
Definition extract_symptoms (K : dict symptom_spec) (sv : services)
    (data : request_json) : M vresponse :=
  try_except
    (match nlp sv with
     | None => mret ([("error", JS "spaCy model not loaded")], 500)
     | Some model =>
         let transcript := default EmptyString (transcript data) in
         if nonempty transcript then
           ents ← lift (model transcript);
           entities ← foldM group_entity [] ents;
           let detected_symptoms := detect K transcript in
           mret ([("success", JB true);
                  ("detected_symptoms", JA (JS <$> detected_symptoms));
                  ("entities", entities_json entities);
                  ("transcript", JS transcript)], 200)
         else mret ([("error", JS "No transcript provided")], 400)
     end)
    (λ e, mret ([("success", JB false); ("error", JS e)], 500)).

(** [data.get(k, d)] *)
Definition get_default (k : string) (d : jv) (data : dict jv) : jv :=
  default d (get k data).


(** [record_symptom] (368-415); [data] is [request.json] for a JSON body
    that is an object ([Some]) or [null] ([None]).  No operation of the body
    raises on such a request. *)
Definition record_symptom (sv : services) (data : option (dict jv))
    : vresponse :=
  match data with
  | None | Some [] => ([("error", JS "symptom_name required")], 400)
  | Some data =>
      match get "symptom_name" data with
      | None => ([("error", JS "symptom_name required")], 400)
      | Some _ =>
          let symptom_record :=
            [("id", JS (py_str sv (get_default "symptom_name" (JS "unknown") data)
                        +:+ "_" +:+ pretty (time_time sv)));
             ("timestamp", JS (time_strftime sv "%Y-%m-%d %H:%M:%S"));
             ("symptom_name", get_default "symptom_name" (JS "") data);
             ("duration", get_default "duration" (JS "") data);
             ("severity", get_default "severity" JNull data);
             ("location", get_default "location" (JS "") data);
             ("characteristics", get_default "characteristics" (JS "") data);
             ("triggers", get_default "triggers" (JS "") data);
             ("relieving_factors", get_default "relieving_factors" (JS "") data);
             ("associated_symptoms", get_default "associated_symptoms" (JA []) data);
             ("onset", get_default "onset" (JS "") data);
             ("notes", get_default "notes" (JS "") data)] in
          ([("success", JB true); ("symptom_record", JO symptom_record)], 200)
      end
  end.

(** The record inside a successful answer of [record_symptom]. *)
Definition recorded (r : vresponse) : option (dict jv) :=
  match get "symptom_record" r.1 with
  | Some (JO o) => Some o
  | _ => None
  end.

(** Sample services: no spaCy model, and a toy model that finds three
    entities in any text. *)
Definition no_model : services :=
  {| nlp := None;
     getenv := λ _, None;
     time_time := 1764633600;
     time_strftime := λ _, "2025-12-02 00:00:00";
     str_of_value := λ _, "?" |}.

Definition toy_entities : list entity :=
  [{| ent_text := "chest pain"; ent_label := "SYMPTOM";
      ent_start_char := 7; ent_end_char := 17 |};
   {| ent_text := "three days"; ent_label := "DURATION";
      ent_start_char := 22; ent_end_char := 32 |};
   {| ent_text := "fever"; ent_label := "SYMPTOM";
      ent_start_char := 44; ent_end_char := 49 |}].

Definition toy_model : services :=
  {| nlp := Some (λ _, Ok toy_entities);
     getenv := λ _, None;
     time_time := 1764633600;
     time_strftime := λ _, "2025-12-02 00:00:00";
     str_of_value := λ _, "?" |}.

(** A world in which the patient names a symptom that has nothing to
    check. *)
Definition rash_world : world :=
  {| symptoms := Sample.kb;
     transcriber_transcribe := λ _, Ok (AaiDone (Some "I have a rash"));
     generate_content :=
       λ _, Ok {| text := Ok "1. Since when do you have the rash?" |};
     json_dumps := λ _, "{}" |}.

(** "A symptom is recorded as a key of the gap result only when something
    is missing for it", read on [process_interview]. *)
Definition records_only_missing (w : world) (audio : list byte) : Prop :=
  ∀ r tr g s l,
    run (process_interview w (Some audio)) = (Ok r, tr)
    → get "gaps" (body r) = Some (JDict g)
    → get s g = Some l
    → l ≠ [].

(** [s.isascii()] *)
Definition ascii_only (s : string) : bool :=
  negb (any_char (λ c, (128 <=? code c)%nat) s).

(** * Properties *)

(** ** Text *)

Lemma startswith_spec (p s : string) :
  startswith p s = true ↔ ∃ b, s = p +:+ b.
Proof.
  revert s; induction p as [|a p IH]; intros s; simpl.
  - split; [eauto | done].
  - destruct s as [|b s]; simpl.
    + split; [done | intros [? ?]; done].
    + rewrite andb_true_iff, bool_decide_eq_true, IH. split.
      * intros [-> [t ->]]. eauto.
      * intros [t Ht]. injection Ht as -> ->. eauto.
Qed.

Lemma contains_spec (p s : string) : contains p s = true ↔ occurs_in p s.
Proof.
  unfold occurs_in. induction s as [|c s IH]; simpl.
  - rewrite startswith_spec. split.
    + intros [b Hb]. exists EmptyString, b. done.
    + intros [a [b Hab]]. destruct a; simpl in Hab; [eauto | done].
  - rewrite orb_true_iff, startswith_spec, IH. split.
    + intros [[b Hb] | [a [b Hab]]].
      * exists EmptyString, b. done.
      * exists (String c a), b. simpl. by rewrite Hab.
    + intros [a [b Hab]]. destruct a as [|c' a]; simpl in Hab.
      * left. eauto.
      * right. injection Hab as -> ->. eauto.
Qed.

#[global] Instance occurs_in_dec (p s : string) : Decision (occurs_in p s).
Proof.
  refine (cast_if (decide (contains p s = true))); by rewrite <- contains_spec.
Defined.



(** ** Dictionaries *)

Lemma get_setitem_eq {V} (k : string) (v : V) (d : dict V) :
  get k (setitem k v d) = Some v.
Proof.
  induction d as [|[k' v'] d IH]; simpl; repeat (case_decide; simpl); done.
Qed.

Lemma get_setitem_ne {V} (k k' : string) (v : V) (d : dict V) :
  k ≠ k' → get k' (setitem k v d) = get k' d.
Proof.
  intros Hne. induction d as [|[k0 v0] d IH]; simpl;
    repeat (case_decide; simpl); subst; done.
Qed.

Lemma get_None_keys {V} (k : string) (d : dict V) :
  get k d = None ↔ k ∉ keys d.
Proof.
  unfold keys. induction d as [|[k' v'] d IH]; simpl.
  - split; [intros _; apply not_elem_of_nil | done].
  - rewrite not_elem_of_cons. case_decide; subst.
    + split; [done | intros [? _]; done].
    + rewrite IH. tauto.
Qed.

Lemma get_Some_keys {V} (k : string) (v : V) (d : dict V) :
  get k d = Some v → k ∈ keys d.
Proof.
  intros Hk. destruct (decide (k ∈ keys d)) as [|Hn]; [done|].
  apply get_None_keys in Hn. congruence.
Qed.

(** ** Keyword detection *)

Lemma detect_loop (tl : string) (acc l : list string) :
  foldl (detect_step tl) acc l
  = acc ++ filter (λ k, occurs_in (symptom_display k) tl) l.
Proof.
  revert acc; induction l as [|k l IH]; intros acc; simpl.
  - by rewrite app_nil_r.
  - rewrite IH. unfold detect_step. rewrite filter_cons.
    destruct (contains (symptom_display k) tl) eqn:Hc.
    + rewrite decide_True by (by apply contains_spec).
      by rewrite <- app_assoc.
    + rewrite decide_False; [done|].
      rewrite <- contains_spec. congruence.
Qed.



(** ** Gap analysis *)

Lemma missing_checks_of_spec (required covered : list string) (check : string) :
  check ∈ missing_checks_of required covered
  ↔ check ∈ required ∧ check ∉ covered.
Proof. unfold missing_checks_of. rewrite list_elem_of_filter. tauto. Qed.

Lemma missing_checks_of_sublist (required covered : list string) :
  missing_checks_of required covered `sublist_of` required.
Proof. apply sublist_filter. Qed.

Lemma missing_checks_of_nil_r (required : list string) :
  missing_checks_of required [] = required.
Proof.
  unfold missing_checks_of. induction required as [|c l IH]; [done|].
  rewrite filter_cons, decide_True by apply not_elem_of_nil. by rewrite IH.
Qed.

Lemma gap_step_missing_for K C g m s :
  gap_step K C (g, m) s
  = match missing_for K C s with
    | [] => (g, m)
    | _ :: _ => (setitem s (missing_for K C s) g, m ++ missing_for K C s)
    end.
Proof. unfold gap_step, missing_for. by destruct (get s K). Qed.

Lemma gap_loop_get K C D : ∀ g0 m0 s,
  get s (foldl (gap_step K C) (g0, m0) D).1
  = if decide (s ∈ D ∧ missing_for K C s ≠ [])
    then Some (missing_for K C s) else get s g0.
Proof.
  induction D as [|a D IH]; intros g0 m0 s; cbn [foldl].
  - case_decide as H; [|done]. destruct H as [H _].
    by apply not_elem_of_nil in H.
  - rewrite gap_step_missing_for.
    destruct (missing_for K C a) as [|c ms] eqn:Ha; rewrite IH.
    + destruct (decide (s ∈ D ∧ _)) as [[Hs Hne]|Hn].
      * rewrite decide_True; [done | split; [by right | done]].
      * rewrite decide_False; [done|]. intros [Hs Hne].
        apply elem_of_cons in Hs as [->|Hs]; [congruence | tauto].
    + destruct (decide (s = a)) as [->|Hsa].
      * rewrite get_setitem_eq, Ha.
        rewrite (decide_True (P := a ∈ a :: D ∧ _));
          [by case_decide | split; [left | done]].
      * rewrite get_setitem_ne by done.
        destruct (decide (s ∈ D ∧ _)) as [[Hs Hne]|Hn].
        -- rewrite decide_True; [done | split; [by right | done]].
        -- rewrite decide_False; [done|]. intros [Hs Hne].
           apply elem_of_cons in Hs as [->|Hs]; [done | tauto].
Qed.

Lemma gap_loop_missing K C D : ∀ g0 m0,
  (foldl (gap_step K C) (g0, m0) D).2 = m0 ++ (D ≫= missing_for K C).
Proof.
  induction D as [|a D IH]; intros g0 m0; cbn [foldl].
  - by rewrite app_nil_r.
  - rewrite gap_step_missing_for, bind_cons.
    destruct (missing_for K C a) as [|c ms] eqn:Ha; rewrite IH.
    + done.
    + by rewrite <- app_assoc.
Qed.

Lemma gap_loop_skip K C D s : missing_for K C s = [] → ∀ st,
  foldl (gap_step K C) st (filter (λ x, x ≠ s) D) = foldl (gap_step K C) st D.
Proof.
  intros Hs. induction D as [|a D IH]; intros [g m]; [done|].
  rewrite filter_cons. case_decide as Ha; cbn [foldl].
  - apply IH.
  - subst a. rewrite (gap_step_missing_for K C g m s), Hs. apply IH.
Qed.

Lemma gap_analysis_unfold K data :
  gap_analysis K data
  = analysis_response
      (gap_loop K (default [] (covered_fields data))
                  (default [] (detected_symptoms data))).1
      (list_of_set (gap_loop K (default [] (covered_fields data))
                               (default [] (detected_symptoms data))).2)
      (default [] (detected_symptoms data)).
Proof. unfold gap_analysis. by destruct (gap_loop _ _ _). Qed.

Lemma elem_of_list_of_set (l : list string) (x : string) :
  x ∈ list_of_set l ↔ x ∈ l.
Proof. unfold list_of_set. by rewrite elem_of_elements, elem_of_list_to_set. Qed.

Lemma initial_gaps_get K D : ∀ g0 s,
  get s (foldl (initial_gap_step K) g0 D)
  = match get s K with
    | Some entry =>
        if decide (s ∈ D) then Some (required_checks entry) else get s g0
    | None => get s g0
    end.
Proof.
  induction D as [|a D IH]; intros g0 s; cbn [foldl].
  - destruct (get s K); [|done]. by rewrite decide_False by apply not_elem_of_nil.
  - rewrite IH. unfold initial_gap_step.
    destruct (get s K) as [entry|] eqn:Hs.
    + destruct (decide (s ∈ D)) as [Hin|Hin].
      * by rewrite decide_True by (by right).
      * destruct (decide (s = a)) as [->|Hsa].
        -- rewrite Hs, get_setitem_eq. by rewrite decide_True by left.
        -- rewrite decide_False
             by (intros [?|?]%elem_of_cons; done).
           destruct (get a K); [by rewrite get_setitem_ne | done].
    + destruct (get a K) as [e|] eqn:Ha; [|done].
      rewrite get_setitem_ne; [done|]. intros ->. congruence.
Qed.

Lemma gap_loop_same K C D D' :
  (∀ s, s ∈ D ↔ s ∈ D') →
  same (gap_loop K C D).1 (gap_loop K C D').1
  ∧ ∀ x, x ∈ list_of_set (gap_loop K C D).2
         ↔ x ∈ list_of_set (gap_loop K C D').2.
Proof.
  intros HD. unfold gap_loop. split.
  - intros s. rewrite !gap_loop_get.
    destruct (decide (s ∈ D ∧ _)) as [[Hs Hne]|Hn].
    + rewrite decide_True; [done | split; [by apply HD | done]].
    + rewrite decide_False; [done|]. intros [Hs Hne]. apply Hn.
      split; [by apply HD | done].
  - intros x. rewrite !elem_of_list_of_set, !gap_loop_missing. simpl.
    rewrite !list_elem_of_bind. by setoid_rewrite HD.
Qed.

(** Gap analysis proper.  For every detected symptom that the knowledge
    base knows, it computes the required checks that are not in the symptom's
    coverage (nothing covered when the symptom has no coverage entry), in
    the order of the required checks; the symptom becomes a key of the gap
    map, with that list, exactly when the list is non-empty, and a symptom
    with an empty list changes neither the gap map nor the aggregate list:
    the analysis is the one obtained without it. *)
Lemma gap_analysis_missing (K : dict symptom_spec) (data : request_json) :
  let D := default [] (detected_symptoms data) in
  let C := default [] (covered_fields data) in
  ∃ g ml,
    gap_loop K C D = (g, ml)
    ∧ gap_analysis K data = analysis_response g (list_of_set ml) D
    ∧ (∀ s entry, s ∈ D → get s K = Some entry →
         let missing :=
           filter (λ check, check ∉ default [] (get s C))
                  (required_checks entry) in
         missing `sublist_of` required_checks entry
         ∧ (∀ check, check ∈ missing
              ↔ check ∈ required_checks entry ∧ check ∉ default [] (get s C))
         ∧ (missing ≠ [] → get s g = Some missing)
         ∧ (missing = [] →
              (s ∉ keys g)
              ∧ gap_loop K C (filter (λ x, x ≠ s) D) = (g, ml)))
    ∧ (∀ check, check ∈ list_of_set ml
         ↔ ∃ s entry, s ∈ D ∧ get s K = Some entry
             ∧ check ∈ required_checks entry
             ∧ check ∉ default [] (get s C)).
Proof.
  intros D C. destruct (gap_loop K C D) as [g ml] eqn:Hloop.
  exists g, ml. split; [done|]. split.
  { rewrite gap_analysis_unfold. fold D C. by rewrite Hloop. }
  assert (Hg : g = (gap_loop K C D).1) by (by rewrite Hloop).
  assert (Hml : ml = (gap_loop K C D).2) by (by rewrite Hloop).
  split.
  - intros s entry Hs Hentry missing.
    assert (Hmf : missing_for K C s = missing).
    { unfold missing_for. by rewrite Hentry. }
    split; [apply missing_checks_of_sublist|].
    split; [intros check; apply missing_checks_of_spec|].
    split.
    + intros Hne. rewrite Hg. unfold gap_loop. rewrite gap_loop_get, Hmf.
      by rewrite decide_True.
    + intros Hnil. split.
      * apply get_None_keys. rewrite Hg. unfold gap_loop.
        rewrite gap_loop_get, Hmf. rewrite decide_False; [done|].
        intros [_ Hne]. done.
      * rewrite <- Hloop. unfold gap_loop. apply gap_loop_skip.
        by rewrite Hmf.
  - intros check. rewrite elem_of_list_of_set, Hml. unfold gap_loop.
    rewrite gap_loop_missing. simpl. rewrite list_elem_of_bind. split.
    + intros (s & Hcheck & Hs). unfold missing_for in Hcheck.
      destruct (get s K) as [entry|] eqn:Hentry.
      * apply missing_checks_of_spec in Hcheck as [? ?]. eauto 10.
      * by apply not_elem_of_nil in Hcheck.
    + intros (s & entry & Hs & Hentry & Hreq & Hcov). exists s.
      split; [|done]. unfold missing_for. rewrite Hentry.
      by apply missing_checks_of_spec.
Qed.

Lemma gap_analysis_missing_witness :
  ∃ g, get "gaps" (body (gap_analysis Sample.kb
           (analysis_request ["chest_pain"; "fever"]
                             [("chest_pain", ["duration"; "severity"])])))
       = Some (JDict g)
    ∧ get "chest_pain" g = Some ["radiation"].
Proof.
  destruct (gap_analysis_missing Sample.kb
              (analysis_request ["chest_pain"; "fever"]
                                [("chest_pain", ["duration"; "severity"])]))
    as (g & ml & _ & Hresp & Hsym & _).
  exists g. split; [rewrite Hresp; reflexivity|].
  destruct (Hsym "chest_pain"
              {| required_checks := ["duration"; "severity"; "radiation"] |})
    as (_ & _ & Hne & _).
  - simpl. left.
  - reflexivity.
  - apply Hne. vm_compute. discriminate.
Defined.

(** C7. The aggregate list of missing checks that gap analysis returns has
    no duplicates, whatever the detected symptoms and the coverage, also
    when detected symptoms share a required check. *)
Theorem gap_analysis_missing_checks_nodup (K : dict symptom_spec)
    (data : request_json) :
  ∃ g m, gap_analysis K data
         = analysis_response g m (default [] (detected_symptoms data))
    ∧ NoDup m.
Proof.
  rewrite gap_analysis_unfold. eexists _, _. split; [done|].
  unfold list_of_set. apply NoDup_elements.
Qed.

(** The specification's first example: two symptoms share [duration], which
    the aggregate list holds once among its four entries. *)
Example shared_check_once :
  ∃ g m, gap_analysis Sample.kb (analysis_request ["chest_pain"; "fever"] [])
         = analysis_response g m ["chest_pain"; "fever"]
    ∧ get "chest_pain" g = Some ["duration"; "severity"; "radiation"]
    ∧ get "fever" g = Some ["duration"; "temperature"]
    ∧ length m = 4
    ∧ m ≡ₚ ["duration"; "severity"; "radiation"; "temperature"].
Proof.
  eexists _, _. split; [vm_compute; reflexivity|].
  repeat split; try reflexivity.
  apply (bool_decide_unpack _). vm_compute. exact I.
Qed.

(** C8. A detected symptom id that the knowledge base does not hold is left
    out of gap analysis: it is no key of the gap map, and the request is
    answered as a success. *)
Theorem gap_analysis_unknown_symptom (K : dict symptom_spec)
    (data : request_json) (s : string) :
  s ∉ keys K →
  ∃ g m, gap_analysis K data
         = analysis_response g m (default [] (detected_symptoms data))
    ∧ (s ∉ keys g)
    ∧ get s g = None
    ∧ get "success" (body (gap_analysis K data)) = Some (JBool true)
    ∧ get "error" (body (gap_analysis K data)) = None
    ∧ status (gap_analysis K data) = 200.
Proof.
  intros Hs. rewrite gap_analysis_unfold. eexists _, _. split; [done|].
  assert (Hget : get s (gap_loop K (default [] (covered_fields data))
                          (default [] (detected_symptoms data))).1 = None).
  { unfold gap_loop. rewrite gap_loop_get. rewrite decide_False; [done|].
    intros [_ Hne]. apply Hne. unfold missing_for.
    apply get_None_keys in Hs. by rewrite Hs. }
  split; [by apply get_None_keys|]. done.
Qed.

Lemma gap_analysis_unknown_symptom_witness :
  ("vertigo" ∉ keys Sample.kb)
  ∧ ∃ g m, gap_analysis Sample.kb (analysis_request ["vertigo"; "fever"] [])
           = analysis_response g m ["vertigo"; "fever"]
      ∧ "vertigo" ∉ keys g.
Proof.
  assert (H : "vertigo" ∉ keys Sample.kb).
  { apply (bool_decide_unpack _). vm_compute. exact I. }
  split; [exact H|].
  destruct (gap_analysis_unknown_symptom Sample.kb
              (analysis_request ["vertigo"; "fever"] []) "vertigo" H)
    as (g & m & Hresp & Hkey & _).
  exists g, m. split; [exact Hresp | exact Hkey].
Defined.

(** C10. Repeated ids in the detected list do not matter to gap analysis:
    the list and the same list with its duplicates removed give the same gap
    map and the same set of missing checks in the aggregate list, which has
    no duplicate either way. *)
Theorem gap_analysis_duplicates (K : dict symptom_spec)
    (C : dict (list string)) (D : list string) :
  ∃ g m g' m',
    gap_analysis K (analysis_request D C) = analysis_response g m D
    ∧ gap_analysis K (analysis_request (remove_dups D) C)
      = analysis_response g' m' (remove_dups D)
    ∧ same g g'
    ∧ NoDup m ∧ NoDup m'
    ∧ ∀ check, check ∈ m ↔ check ∈ m'.
Proof.
  rewrite !gap_analysis_unfold. simpl.
  eexists _, _, _, _. split; [done|]. split; [done|].
  destruct (gap_loop_same K C D (remove_dups D)) as [Hsame Hmem].
  { intros s. by rewrite elem_of_remove_dups. }
  split; [exact Hsame|].
  split; [unfold list_of_set; apply NoDup_elements|].
  split; [unfold list_of_set; apply NoDup_elements|].
  exact Hmem.
Qed.

(** ** Running the handlers *)

Lemma bind_ok {A B} (m : M A) (f : A → M B) tr a tr' :
  m tr = (Ok a, tr') → (m ≫= f) tr = f a tr'.
Proof. intros H. unfold mbind, M_bind. by rewrite H. Qed.

Lemma bind_raised {A B} (m : M A) (f : A → M B) tr e tr' :
  m tr = (Raised e, tr') → (m ≫= f) tr = (Raised e, tr').
Proof. intros H. unfold mbind, M_bind. by rewrite H. Qed.

Lemma try_ok {A} (m : M A) (h : string → M A) tr a tr' :
  m tr = (Ok a, tr') → try_except m h tr = (Ok a, tr').
Proof. intros H. unfold try_except. by rewrite H. Qed.

Lemma try_raised {A} (m : M A) (h : string → M A) tr e tr' :
  m tr = (Raised e, tr') → try_except m h tr = h e tr'.
Proof. intros H. unfold try_except. by rewrite H. Qed.

(** ** Parsing the generated text *)

Lemma append_cons (c : ascii) (a b : string) :
  String c a +:+ b = String c (a +:+ b).
Proof. reflexivity. Qed.

Lemma append_nil (b : string) : EmptyString +:+ b = b.
Proof. reflexivity. Qed.

Lemma append_assoc (a b c : string) : (a +:+ b) +:+ c = a +:+ (b +:+ c).
Proof. induction a as [|x a IH]; [done|]. by rewrite !(append_cons x), IH. Qed.

Lemma slice_to_prefix (n : nat) (s : string) : ∃ r, s = slice_to n s +:+ r.
Proof.
  revert s; induction n as [|n IH]; intros s; [by exists s|].
  destruct s as [|c s]; [by exists EmptyString|].
  destruct (IH s) as [r Hr]. exists r. simpl. by rewrite append_cons, <- Hr.
Qed.

Lemma split1_found (sep : ascii) (a b : string) :
  ∃ h, split1 sep (a +:+ String sep b) !! 1 = Some h.
Proof.
  induction a as [|c a [h IH]]; rewrite ?append_nil, ?append_cons; simpl.
  - rewrite decide_True by done. eauto.
  - case_decide; [eauto|].
    destruct (split1 sep (a +:+ String sep b)) as [|x [|y l]]; try done.
    simpl in *. eauto.
Qed.

Lemma split1_dot (n : nat) (line : string) :
  contains "." (slice_to n line) = true →
  ∃ h, split1 "."%char line !! 1 = Some h.
Proof.
  intros (a & b & Hab)%contains_spec.
  destruct (slice_to_prefix n line) as [r Hr].
  assert (Hline : line = a +:+ String "." (b +:+ r)).
  { rewrite Hr, Hab. by rewrite !append_assoc. }
  rewrite Hline. apply split1_found.
Qed.

(** The loop body raises nothing: its guards keep [line[0]] and
    [line.split('.', 1)[1]] in range. *)
Lemma parse_line_total (questions : list string) (line : string) tr :
  parse_line questions line tr
  = (Ok (questions ++ option_list (question_of_line line)), tr).
Proof.
  unfold parse_line, question_of_line. cbv zeta.
  destruct (strip line) as [|c l] eqn:Hline.
  { cbn [nonempty andb option_list]. unfold mret, M_ret. by rewrite app_nil_r. }
  assert (Hfc : first_char (String c l) tr = (Ok c, tr)) by done.
  assert (Hsn : strip_numbering (String c l)
    = if isdigit c && contains "." (slice_to 3 (String c l))
      then strip (default EmptyString (split1 "."%char (String c l) !! 1))
      else String c l) by done.
  assert (Hne : nonempty (String c l) = true) by done.
  revert Hfc Hsn Hne. generalize (String c l). intros L Hfc Hsn Hne.
  rewrite Hne, andb_true_l.
  destruct (5 <? String.length L)%nat.
  2: { cbn [option_list]. unfold mret, M_ret. by rewrite app_nil_r. }
  rewrite (bind_ok _ _ _ _ _ Hfc), Hsn.
  destruct (isdigit c && contains "." (slice_to 3 L)) eqn:Hnum.
  - apply andb_true_iff in Hnum as [_ Hdot].
    destruct (split1_dot _ _ Hdot) as [h Hh].
    assert (Hitem : (item 1 (split1 "."%char L) ≫= λ rest, mret (strip rest)) tr
                    = (Ok (strip h), tr)).
    { unfold item. by rewrite Hh. }
    rewrite (bind_ok _ _ _ _ _ Hitem), Hh. cbn [default]. change (id h) with h.
    destruct (nonempty (strip h)); cbn [option_list]; unfold mret, M_ret;
      [done | by rewrite app_nil_r].
  - assert (Hret : (mret L : M string) tr = (Ok L, tr)) by done.
    rewrite (bind_ok _ _ _ _ _ Hret), Hne. done.
Qed.

Lemma parse_lines_total (lines : list string) : ∀ questions tr,
  foldM parse_line questions lines tr
  = (Ok (questions ++ omap question_of_line lines), tr).
Proof.
  induction lines as [|line lines IH]; intros questions tr; simpl.
  - by rewrite app_nil_r.
  - erewrite bind_ok by apply parse_line_total. rewrite IH, <- app_assoc.
    by destruct (question_of_line line).
Qed.

Lemma parse_questions_total (response_text : string) tr :
  parse_questions response_text tr = (Ok (questions_of_text response_text), tr).
Proof. unfold parse_questions. by rewrite parse_lines_total. Qed.

(** ** The handlers, run *)

Lemma transcribe_audio_run (w : world) (audio : list byte) tr :
  transcribe_audio w audio tr
  = (Ok match transcriber_transcribe w audio with
        | Ok (AaiDone text) => text
        | _ => None
        end,
     tr ++ [CallTranscriber audio]).
Proof.
  unfold transcribe_audio, try_except, call_transcriber, emit, lift,
    mbind, M_bind, mret, M_ret.
  by destruct (transcriber_transcribe w audio) as [[e|text]|e].
Qed.

Lemma call_gemini_run (w : world) (prompt : string) tr :
  call_gemini w prompt tr = (generate_content w prompt, tr ++ [CallGemini prompt]).
Proof. reflexivity. Qed.

Ltac step_handler :=
  cbv beta iota delta
    [run process_interview generate_questions try_except mbind M_bind
     emit mret M_ret lift call_gemini questions_request
     detected_symptoms gaps transcript default id].

Lemma process_interview_no_transcript (w : world) (audio : list byte) :
  transcription_fails w audio →
  run (process_interview w (Some audio))
  = (Ok ([("success", JBool false);
          ("error", JStr "Failed to transcribe audio. Check your AssemblyAI API key and internet connection.")],
         500),
     [Step 1; CallTranscriber audio]).
Proof.
  unfold transcription_fails. intros Hfail. step_handler.
  rewrite transcribe_audio_run.
  by destruct (transcriber_transcribe w audio) as [[e|[[|c t]|]]|e].
Qed.

Lemma process_interview_generation_failed (w : world) (audio : list byte)
    (t e : string) :
  transcribed w audio t →
  generation_fails w (prompt_of_transcript w t) e →
  run (process_interview w (Some audio))
  = (Ok ([("success", JBool false); ("error", JStr e)], 500),
     full_trace w audio t).
Proof.
  intros [Ht Hne] Hgen. step_handler. rewrite transcribe_audio_run, Ht.
  destruct t as [|c t]; [done|]. cbv beta iota zeta.
  unfold prompt_of_transcript in Hgen. cbv zeta in Hgen.
  destruct Hgen as [-> | (r & -> & Hr)]; [done | by rewrite Hr].
Qed.

Lemma process_interview_answer (w : world) (audio : list byte)
    (t txt : string) :
  transcribed w audio t →
  generation_returns w (prompt_of_transcript w t) txt →
  run (process_interview w (Some audio))
  = (Ok ([("success", JBool true);
          ("transcript", JStr t);
          ("detected_symptoms", JList (detect (symptoms w) t));
          ("diagnostic_gaps",
           JDict (initial_gaps (symptoms w) (detect (symptoms w) t)));
          ("gaps", JDict (initial_gaps (symptoms w) (detect (symptoms w) t)));
          ("suggested_questions", JList (take 5 (questions_of_text txt)))],
         200),
     full_trace w audio t).
Proof.
  intros [Ht Hne] Hgen. step_handler. rewrite transcribe_audio_run, Ht.
  destruct t as [|c t]; [done|]. cbv beta iota zeta.
  unfold prompt_of_transcript in Hgen. cbv zeta in Hgen.
  destruct Hgen as (r & -> & Hr). rewrite Hr, parse_questions_total. done.
Qed.

Lemma generate_questions_generation_failed (w : world) (D : list string)
    (G : dict (list string)) (T e : string) :
  D ≠ [] → G ≠ [] →
  generation_fails w (questions_prompt w D G T) e →
  run (generate_questions w (questions_request D G T))
  = (Ok ([("success", JBool false);
          ("error", JStr e);
          ("questions", JList ["Unable to generate questions at this time"])],
         200),
     [CallGemini (questions_prompt w D G T)]).
Proof.
  intros HD HG Hgen. step_handler.
  destruct D as [|d D]; [done|]. destruct G as [|g G]; [done|].
  cbv beta iota zeta.
  destruct Hgen as [-> | (r & -> & Hr)]; [done | by rewrite Hr].
Qed.

Lemma generate_questions_answer (w : world) (D : list string)
    (G : dict (list string)) (T txt : string) :
  D ≠ [] → G ≠ [] →
  generation_returns w (questions_prompt w D G T) txt →
  run (generate_questions w (questions_request D G T))
  = (Ok ([("success", JBool true);
          ("questions",
           JList (take 5 match questions_of_text txt with
                         | [] => ["What other symptoms are you experiencing?"]
                         | q :: qs => q :: qs
                         end))],
         200),
     [CallGemini (questions_prompt w D G T)]).
Proof.
  intros HD HG Hgen. step_handler.
  destruct D as [|d D]; [done|]. destruct G as [|g G]; [done|].
  cbv beta iota zeta.
  destruct Hgen as (r & -> & Hr). rewrite Hr, parse_questions_total.
  by destruct (questions_of_text txt).
Qed.

(** ** The initial pass *)

(** C3, as the specification has it, fails on [gap_analysis]: a detected
    symptom without required checks gets no entry in the gap map, where the
    equation asks for the empty list. *)
Lemma empty_coverage_verbatim_fails :
  ¬ empty_coverage_verbatim Sample.kb ["rash"].
Proof.
  intros (g & m & Hresp & Hall).
  specialize (Hall "rash" {| required_checks := [] |}).
  vm_compute in Hresp. injection Hresp as <- <-.
  assert (Hget : get "rash" ([] : dict (list string)) = Some []).
  { apply Hall; [left | reflexivity]. }
  discriminate Hget.
Qed.

(** C3, amended. The initial pass of the pipeline maps every detected
    symptom of the knowledge base to its required checks as they are, the
    empty list included, and a completed run returns that map.  Gap analysis
    under an empty coverage does the same for every such symptom with at
    least one required check, and has no entry for one without. *)
Theorem initial_pass_gaps (w : world) :
  let K := symptoms w in
  (∀ D s entry, s ∈ D → get s K = Some entry →
     get s (initial_gaps K D) = Some (required_checks entry))
  ∧ (∀ audio t txt,
       transcribed w audio t →
       generation_returns w (prompt_of_transcript w t) txt →
       ∃ r tr g, run (process_interview w (Some audio)) = (Ok r, tr)
         ∧ get "gaps" (body r) = Some (JDict g)
         ∧ ∀ s entry, s ∈ detect K t → get s K = Some entry →
             get s g = Some (required_checks entry))
  ∧ (∀ D, ∃ g m,
       gap_analysis K (analysis_request D []) = analysis_response g m D
       ∧ ∀ s entry, s ∈ D → get s K = Some entry →
           get s g = match required_checks entry with
                     | [] => None
                     | _ :: _ => Some (required_checks entry)
                     end).
Proof.
  intros K.
  assert (Hinit : ∀ D s entry, s ∈ D → get s K = Some entry →
            get s (initial_gaps K D) = Some (required_checks entry)).
  { intros D s entry Hs Hentry. unfold initial_gaps.
    rewrite initial_gaps_get, Hentry. by rewrite decide_True. }
  split; [exact Hinit|]. split.
  - intros audio t txt Ht Hgen. eexists _, _, _.
    split; [by apply (process_interview_answer w audio t txt)|].
    split; [reflexivity|]. intros s entry. apply Hinit.
  - intros D. rewrite gap_analysis_unfold. eexists _, _. split; [done|].
    intros s entry Hs Hentry. simpl. unfold gap_loop.
    rewrite gap_loop_get. unfold missing_for.
    rewrite Hentry. simpl. rewrite missing_checks_of_nil_r.
    destruct (required_checks entry) as [|c l].
    + rewrite decide_False; [done|]. by intros [_ ?].
    + by rewrite decide_True.
Qed.

Lemma initial_pass_gaps_witness :
  get "rash" (initial_gaps Sample.kb ["rash"; "fever"]) = Some []
  ∧ get "fever" (initial_gaps Sample.kb ["rash"; "fever"])
    = Some ["duration"; "temperature"].
Proof.
  pose proof (proj1 (initial_pass_gaps (Sample.world_with (λ _, Raised ""))))
    as H.
  split.
  - apply (H ["rash"; "fever"] "rash" {| required_checks := [] |});
      [left | reflexivity].
  - apply (H ["rash"; "fever"] "fever"
             {| required_checks := ["duration"; "temperature"] |});
      [right; left | reflexivity].
Defined.

(** C2, as the specification has it, fails on the pipeline: the patient
    names a symptom that has nothing to check, and the gap map of the answer
    has it as a key, with the empty list. *)
Lemma records_only_missing_fails :
  ¬ records_only_missing rash_world [].
Proof.
  intros Hall.
  pose proof (process_interview_answer rash_world [] "I have a rash"
                "1. Since when do you have the rash?") as Hrun.
  specialize (Hall _ _ [("rash", [])] "rash" []
                (Hrun ltac:(split; [reflexivity | discriminate])
                      ltac:(eexists; split; reflexivity))).
  by apply Hall.
Qed.

(** C2, amended. On both paths a detected symptom of the knowledge base
    gets the required checks that its coverage does not hold, in their
    order.  Gap analysis proper records the symptom only when that list is
    not empty, so that a symptom with nothing to check, or with everything
    covered, changes neither the gap map nor the aggregate list.  The
    initial pass of the pipeline has no coverage and records every such
    symptom with all its required checks, also when there is none. *)
Theorem gap_map_on_both_paths (w : world) (data : request_json) :
  let K := symptoms w in
  let D := default [] (detected_symptoms data) in
  let C := default [] (covered_fields data) in
  (∃ g ml,
     gap_loop K C D = (g, ml)
     ∧ gap_analysis K data = analysis_response g (list_of_set ml) D
     ∧ (∀ s entry, s ∈ D → get s K = Some entry →
          let missing :=
            filter (λ check, check ∉ default [] (get s C))
                   (required_checks entry) in
          missing `sublist_of` required_checks entry
          ∧ (∀ check, check ∈ missing
               ↔ check ∈ required_checks entry
                 ∧ check ∉ default [] (get s C))
          ∧ (missing ≠ [] → get s g = Some missing)
          ∧ (missing = [] →
               (s ∉ keys g)
               ∧ gap_loop K C (filter (λ x, x ≠ s) D) = (g, ml)))
     ∧ (∀ check, check ∈ list_of_set ml
          ↔ ∃ s entry, s ∈ D ∧ get s K = Some entry
              ∧ check ∈ required_checks entry
              ∧ check ∉ default [] (get s C)))
  ∧ (∀ audio t txt,
       transcribed w audio t →
       generation_returns w (prompt_of_transcript w t) txt →
       ∃ r tr g,
         run (process_interview w (Some audio)) = (Ok r, tr)
         ∧ get "gaps" (body r) = Some (JDict g)
         ∧ ∀ s entry, s ∈ detect K t → get s K = Some entry →
             get s g
             = Some (filter (λ check, check ∉ @nil string)
                            (required_checks entry))
             ∧ get s g = Some (required_checks entry)).
Proof.
  intros K D C. split; [apply gap_analysis_missing|].
  intros audio t txt Ht Hgen. eexists _, _, _.
  split; [by apply (process_interview_answer w audio t txt)|].
  split; [reflexivity|]. intros s entry Hs Hentry.
  assert (Hget : get s (initial_gaps K (detect K t))
                 = Some (required_checks entry)).
  { unfold initial_gaps. rewrite initial_gaps_get. fold K.
    rewrite Hentry. by rewrite decide_True. }
  split; [|exact Hget]. etransitivity; [exact Hget|]. f_equal. symmetry.
  apply missing_checks_of_nil_r.
Qed.

Lemma gap_map_on_both_paths_witness :
  (∃ g, get "gaps" (body (gap_analysis Sample.kb
            (analysis_request ["chest_pain"; "fever"]
                              [("chest_pain", ["duration"; "severity"])])))
        = Some (JDict g)
     ∧ get "chest_pain" g = Some ["radiation"])
  ∧ (∃ r tr g, run (process_interview rash_world (Some [])) = (Ok r, tr)
       ∧ get "gaps" (body r) = Some (JDict g)
       ∧ get "rash" g = Some []).
Proof.
  destruct (gap_map_on_both_paths rash_world
              (analysis_request ["chest_pain"; "fever"]
                                [("chest_pain", ["duration"; "severity"])]))
    as ((g & ml & _ & Hresp & Hsym & _) & Hpipe).
  split.
  - exists g.
    split; [exact (f_equal (λ r, get "gaps" (body r)) Hresp)|].
    destruct (Hsym "chest_pain"
                {| required_checks := ["duration"; "severity"; "radiation"] |})
      as (_ & _ & Hne & _).
    + simpl. left.
    + reflexivity.
    + apply Hne. vm_compute. discriminate.
  - destruct (Hpipe [] "I have a rash" "1. Since when do you have the rash?")
      as (r & tr & g' & Hrun & Hgaps & Hall).
    + split; [reflexivity | discriminate].
    + eexists. split; reflexivity.
    + exists r, tr, g'. split; [exact Hrun|]. split; [exact Hgaps|].
      apply (Hall "rash" {| required_checks := [] |}).
      * apply (bool_decide_unpack _). vm_compute. exact I.
      * reflexivity.
Defined.

(** ** Failures of the external services *)

(** With the text generator down, the pipeline does not answer with a
    success and a fallback question. *)
Lemma degrades_to_fallback_fails :
  ¬ degrades_to_fallback Sample.gemini_down [].
Proof.
  intros (r & tr & Hrun & Hsuccess & _).
  vm_compute in Hrun. injection Hrun as <- <-. discriminate Hsuccess.
Qed.

(** What the two handlers do when the text generator raises, or answers
    without text.  The pipeline answers with
    [success = false] and the text of the error, under status 500 and
    without questions; the question-generation operation answers with
    [success = false], the text of the error and the one fallback question
    "Unable to generate questions at this time", under status 200. *)
Lemma generation_failure_is_reported (w : world) :
  (∀ audio t e,
     transcribed w audio t →
     generation_fails w (prompt_of_transcript w t) e →
     run (process_interview w (Some audio))
     = (Ok ([("success", JBool false); ("error", JStr e)], 500),
        full_trace w audio t))
  ∧ (∀ D G T e,
       D ≠ [] → G ≠ [] →
       generation_fails w (questions_prompt w D G T) e →
       run (generate_questions w (questions_request D G T))
       = (Ok ([("success", JBool false);
               ("error", JStr e);
               ("questions",
                JList ["Unable to generate questions at this time"])],
              200),
          [CallGemini (questions_prompt w D G T)])).
Proof.
  split.
  - intros audio t e. apply process_interview_generation_failed.
  - intros D G T e. apply generate_questions_generation_failed.
Qed.

Lemma generation_failure_is_reported_witness :
  run (process_interview Sample.gemini_down (Some []))
  = (Ok ([("success", JBool false); ("error", JStr "503 unavailable")], 500),
     full_trace Sample.gemini_down [] Sample.heard).
Proof.
  apply (proj1 (generation_failure_is_reported Sample.gemini_down)).
  - split; [reflexivity | discriminate].
  - left. reflexivity.
Defined.

(** A failed transcription is not the only way for the pipeline to report
    failure.  Here the audio is transcribed and the pipeline still fails, on
    the text generator. *)
Lemma only_transcription_is_fatal_fails :
  ¬ only_transcription_is_fatal Sample.gemini_down [].
Proof.
  intros Hone.
  specialize (Hone ([("success", JBool false);
                     ("error", JStr "503 unavailable")], 500)
                   (full_trace Sample.gemini_down [] Sample.heard)).
  assert (Hfails : transcription_fails Sample.gemini_down []).
  { apply Hone; [|reflexivity].
    apply process_interview_generation_failed.
    - split; [reflexivity | discriminate].
    - left. reflexivity. }
  exact Hfails.
Qed.

(** A transcription that fails or is empty is fatal to the pipeline: the
    caller gets an explicit failure with a readable reason,
    and nothing runs after the transcription step: no later step, no call
    of the text generator. *)
Lemma transcription_failure_is_fatal (w : world) (audio : list byte) :
  transcription_fails w audio →
  ∃ tr,
    run (process_interview w (Some audio))
    = (Ok ([("success", JBool false);
            ("error", JStr "Failed to transcribe audio. Check your AssemblyAI API key and internet connection.")],
           500),
       tr)
    ∧ tr = [Step 1; CallTranscriber audio]
    ∧ (∀ n, Step n ∈ tr → n = 1)
    ∧ (∀ prompt, CallGemini prompt ∉ tr).
Proof.
  intros Hfail. eexists. split; [by apply process_interview_no_transcript|].
  split; [done|]. split.
  - intros n Hn. apply elem_of_cons in Hn as [Hn|Hn]; [congruence|].
    apply elem_of_cons in Hn as [Hn|Hn]; [done|].
    by apply not_elem_of_nil in Hn.
  - intros prompt Hp. apply elem_of_cons in Hp as [Hp|Hp]; [done|].
    apply elem_of_cons in Hp as [Hp|Hp]; [done|].
    by apply not_elem_of_nil in Hp.
Qed.

Lemma transcription_failure_is_fatal_witness :
  ∃ tr, run (process_interview Sample.deaf (Some []))
        = (Ok ([("success", JBool false);
                ("error", JStr "Failed to transcribe audio. Check your AssemblyAI API key and internet connection.")],
               500),
           tr)
    ∧ tr = [Step 1; CallTranscriber []].
Proof.
  destruct (transcription_failure_is_fatal Sample.deaf []) as (tr & H1 & H2 & _).
  - exact I.
  - exists tr. split; [exact H1 | exact H2].
Defined.

(** C1, on the pipeline. The text generator is down.  The
    question-generation operation then puts its fallback question in and
    answers with status 200; the pipeline, which calls the generator in the
    same way, answers with status 500, [success = false] and the text of
    the error, and returns no question at all. *)
Theorem pipeline_fails_when_generator_fails :
  generation_fails Sample.gemini_down
    (prompt_of_transcript Sample.gemini_down Sample.heard) "503 unavailable"
  ∧ (∃ r tr,
       run (generate_questions Sample.gemini_down
              (questions_request ["fever"] [("fever", ["duration"])]
                                 Sample.heard))
       = (Ok r, tr)
       ∧ status r = 200
       ∧ get "questions" (body r)
         = Some (JList ["Unable to generate questions at this time"]))
  ∧ (∃ r tr,
       run (process_interview Sample.gemini_down (Some [])) = (Ok r, tr)
       ∧ status r = 500
       ∧ get "success" (body r) = Some (JBool false)
       ∧ get "error" (body r) = Some (JStr "503 unavailable")
       ∧ get "suggested_questions" (body r) = None
       ∧ get "questions" (body r) = None).
Proof.
  split; [left; reflexivity|].
  split; eexists _, _; (split; [vm_compute; reflexivity|]);
    repeat split.
Qed.

(** C6, on the pipeline. A transcription that fails or is empty is fatal:
    the caller gets an explicit failure with a readable reason, and nothing
    runs after the transcription step.  It is not the one fatal error,
    though: with the audio transcribed and the text generator down, the
    pipeline runs all its steps and then reports a failure as well. *)
Theorem transcription_is_fatal_and_not_alone :
  (∀ w audio,
     transcription_fails w audio →
     ∃ tr,
       run (process_interview w (Some audio))
       = (Ok ([("success", JBool false);
               ("error", JStr "Failed to transcribe audio. Check your AssemblyAI API key and internet connection.")],
              500),
          tr)
       ∧ tr = [Step 1; CallTranscriber audio]
       ∧ (∀ n, Step n ∈ tr → n = 1)
       ∧ (∀ prompt, CallGemini prompt ∉ tr))
  ∧ (transcribed Sample.gemini_down [] Sample.heard
     ∧ ∃ r tr,
         run (process_interview Sample.gemini_down (Some [])) = (Ok r, tr)
         ∧ status r = 500
         ∧ get "success" (body r) = Some (JBool false)
         ∧ get "error" (body r) = Some (JStr "503 unavailable")
         ∧ tr = full_trace Sample.gemini_down [] Sample.heard).
Proof.
  split; [intros w audio; apply transcription_failure_is_fatal|].
  split; [split; [reflexivity | discriminate]|].
  eexists _, _. split.
  - apply (process_interview_generation_failed Sample.gemini_down []
             Sample.heard "503 unavailable").
    + split; [reflexivity | discriminate].
    + left. reflexivity.
  - repeat split.
Qed.

Lemma transcription_is_fatal_and_not_alone_witness :
  ∃ tr, run (process_interview Sample.deaf (Some []))
        = (Ok ([("success", JBool false);
                ("error", JStr "Failed to transcribe audio. Check your AssemblyAI API key and internet connection.")],
               500),
           tr)
    ∧ tr = [Step 1; CallTranscriber []].
Proof.
  destruct (proj1 transcription_is_fatal_and_not_alone Sample.deaf [])
    as (tr & H1 & H2 & _).
  - exact I.
  - exists tr. split; [exact H1 | exact H2].
Defined.

(** ** Questions *)

(** C9. Without detected symptoms, or without gaps, the question-generation
    operation answers at once with a success and the one question "Please
    provide more information about your symptoms"; the text generator is
    not called. *)
Theorem generate_questions_without_input (w : world) (data : request_json) :
  default [] (detected_symptoms data) = [] ∨ default [] (gaps data) = [] →
  run (generate_questions w data)
  = (Ok ([("success", JBool true);
          ("questions",
           JList ["Please provide more information about your symptoms"])],
         200),
     []).
Proof.
  unfold run, generate_questions, try_except. cbv zeta.
  destruct (default [] (detected_symptoms data)) as [|d D];
    destruct (default [] (gaps data)) as [|g G]; try done.
  intros [?|?]; done.
Qed.

Lemma generate_questions_without_input_witness :
  run (generate_questions Sample.gemini_down
         {| detected_symptoms := None; covered_fields := None;
            gaps := Some [("fever", ["duration"])]; transcript := None |})
  = (Ok ([("success", JBool true);
          ("questions",
           JList ["Please provide more information about your symptoms"])],
         200),
     []).
Proof.
  apply generate_questions_without_input. left. reflexivity.
Defined.

(** The parsing loop on a numbered answer: short lines go, numbers go, and
    the answer is cut after the fifth question. *)
Example questions_of_numbered_text :
  questions_of_text
    (concat_str ["Here are some questions:"; nl;
                 "1. How long has the pain lasted?"; nl;
                 nl;
                 "  2. Does it spread to the arm?  "; nl;
                 "ok"; nl;
                 "3. How high was the fever?"; nl;
                 "4. Any cough?"; nl;
                 "5. Any rash?"])
  = ["Here are some questions:"; "How long has the pain lasted?";
     "Does it spread to the arm?"; "How high was the fever?";
     "Any cough?"; "Any rash?"]
  ∧ length (take 5 (questions_of_text
      (concat_str ["Here are some questions:"; nl;
                   "1. How long has the pain lasted?"; nl;
                   "2. Does it spread to the arm?"; nl;
                   "3. How high was the fever?"; nl;
                   "4. Any cough?"; nl;
                   "5. Any rash?"]))) = 5.
Proof. split; vm_compute; reflexivity. Qed.

(** C5, on the pipeline. The text generator answers "None.", which holds no
    line of more than 5 characters.  The question-generation operation then
    puts its fallback question in; the pipeline returns a success with an
    empty list of questions. *)
Theorem pipeline_lacks_fallback_question :
  questions_of_text "None." = []
  ∧ (∃ r tr,
       run (generate_questions Sample.gemini_terse
              (questions_request ["fever"] [("fever", ["duration"])]
                                 Sample.heard))
       = (Ok r, tr)
       ∧ get "success" (body r) = Some (JBool true)
       ∧ get "questions" (body r)
         = Some (JList ["What other symptoms are you experiencing?"]))
  ∧ (∃ r tr,
       run (process_interview Sample.gemini_terse (Some [])) = (Ok r, tr)
       ∧ get "success" (body r) = Some (JBool true)
       ∧ get "suggested_questions" (body r) = Some (JList [])).
Proof.
  split; [vm_compute; reflexivity|].
  split; eexists _, _; (split; [vm_compute; reflexivity|]);
    split; reflexivity.
Qed.

(** * Further properties *)

(** ** Detection *)

Lemma detect_filter (K : dict symptom_spec) (T : string) :
  detect K T = filter (λ s, occurs_in (symptom_display s) (lower T)) (keys K).
Proof. unfold detect. by rewrite detect_loop. Qed.

Lemma map_chars_app (f : ascii → ascii) (a b : string) :
  map_chars f (a +:+ b) = map_chars f a +:+ map_chars f b.
Proof.
  induction a as [|c a IH]; [done|].
  rewrite append_cons. simpl. by rewrite IH, append_cons.
Qed.

Lemma occurs_in_trans (p s s' : string) :
  occurs_in p s → occurs_in s s' → occurs_in p s'.
Proof.
  intros (a & b & ->) (a' & b' & ->).
  exists (a' +:+ a), (b +:+ b'). by rewrite !append_assoc.
Qed.

Lemma occurs_in_lower (s s' : string) :
  occurs_in s s' → occurs_in (lower s) (lower s').
Proof.
  intros (a & b & ->). exists (lower a), (lower b).
  unfold lower. by rewrite !map_chars_app.
Qed.

Lemma filter_sublist_impl {A} (P Q : A → Prop)
    `{∀ x, Decision (P x)} `{∀ x, Decision (Q x)} (l : list A) :
  (∀ x, x ∈ l → P x → Q x) → filter P l `sublist_of` filter Q l.
Proof.
  induction l as [|x l IH]; intros HPQ; [done|].
  assert (Hl : filter P l `sublist_of` filter Q l).
  { apply IH. intros y Hy. apply HPQ. by right. }
  rewrite !filter_cons. destruct (decide (P x)) as [HP|HP].
  - rewrite decide_True by (apply HPQ; [left | done]). by apply sublist_skip.
  - destruct (decide (Q x)); [by apply sublist_cons | done].
Qed.

Lemma filter_ext_elem {A} (P Q : A → Prop)
    `{∀ x, Decision (P x)} `{∀ x, Decision (Q x)} (l : list A) :
  (∀ x, x ∈ l → (P x ↔ Q x)) → filter P l = filter Q l.
Proof.
  induction l as [|x l IH]; intros HPQ; [done|].
  rewrite !filter_cons, IH by (intros y Hy; apply HPQ; by right).
  destruct (decide (P x)) as [HP|HP].
  - by rewrite decide_True by (apply HPQ; [left | done]).
  - rewrite decide_False; [done|]. intros HQ. apply HP, HPQ; [left | done].
Qed.

(** X1. A knowledge base lists each id once, and so does the detection: no
    symptom is reported twice, however often the transcript names it. *)
Theorem detect_nodup (K : dict symptom_spec) (T : string) :
  NoDup (keys K) → NoDup (detect K T).
Proof. intros HK. rewrite detect_filter. by apply NoDup_filter. Qed.

Lemma detect_nodup_witness :
  NoDup (keys Sample.kb) ∧ NoDup (detect Sample.kb Sample.heard).
Proof.
  assert (H : NoDup (keys Sample.kb)).
  { apply (bool_decide_unpack _). vm_compute. exact I. }
  split; [exact H | exact (detect_nodup Sample.kb Sample.heard H)].
Defined.

(** X2. On ASCII text detection only grows with the transcript: what is
    detected in a text is detected, in the same order, in every ASCII text
    that contains it.  (Beyond ASCII lowercasing may depend on what
    follows a letter, and the property is not claimed.) *)
Theorem detect_monotone (K : dict symptom_spec) (T T' : string) :
  ascii_only T' = true →
  occurs_in T T' → detect K T `sublist_of` detect K T'.
Proof.
  intros _ HT. rewrite !detect_filter. apply filter_sublist_impl.
  intros s _ Hs. eapply occurs_in_trans; [exact Hs|].
  by apply occurs_in_lower.
Qed.

Lemma detect_monotone_witness :
  ascii_only Sample.heard = true
  ∧ occurs_in "chest pain" Sample.heard
  ∧ detect Sample.kb "chest pain" `sublist_of` detect Sample.kb Sample.heard.
Proof.
  assert (H : occurs_in "chest pain" Sample.heard).
  { exists "I have ", " and a mild fever". reflexivity. }
  split; [reflexivity|].
  split; [exact H|].
  apply (detect_monotone Sample.kb "chest pain" Sample.heard); [reflexivity|].
  exact H.
Defined.

Lemma any_char_app (f : ascii → bool) (a b : string) :
  any_char f (a +:+ b) = any_char f a || any_char f b.
Proof.
  induction a as [|c a IH]; [done|].
  rewrite append_cons. simpl. by rewrite IH, orb_assoc.
Qed.

Lemma is_upper_lower_char (c : ascii) : is_upper (lower_char c) = false.
Proof. by destruct c as [[] [] [] [] [] [] [] []]. Qed.

Lemma any_upper_lower (s : string) : any_char is_upper (lower s) = false.
Proof.
  unfold lower. induction s as [|c s IH]; [done|]. simpl.
  by rewrite is_upper_lower_char, IH.
Qed.

Lemma any_upper_display (s : string) :
  any_char is_upper (symptom_display s) = any_char is_upper s.
Proof.
  unfold symptom_display, replace. induction s as [|c s IH]; [done|].
  simpl. rewrite IH. by case_decide; subst.
Qed.

(** X3. The transcript is lowercased and the ids are not: an id that holds
    an uppercase letter is never detected, whatever the transcript says. *)
Theorem detect_uppercase_id (K : dict symptom_spec) (T s : string) :
  any_char is_upper s = true → s ∉ detect K T.
Proof.
  intros Hup. rewrite detect_filter, list_elem_of_filter.
  intros [(a & b & Hocc) _].
  pose proof (any_upper_lower T) as Hlow.
  rewrite Hocc, !any_char_app, any_upper_display, Hup in Hlow.
  by rewrite orb_true_r in Hlow.
Qed.

Lemma detect_uppercase_id_witness :
  any_char is_upper "Fever" = true
  ∧ "Fever" ∉ detect [("Fever", {| required_checks := ["duration"] |})]
                     "I have a Fever".
Proof.
  split; [reflexivity | by apply detect_uppercase_id].
Defined.

(** ** Gap analysis *)

Lemma keys_setitem {V} (k : string) (v : V) (d : dict V) :
  keys (setitem k v d) = if decide (k ∈ keys d) then keys d else keys d ++ [k].
Proof.
  unfold keys. induction d as [|[k' v'] d IH]; [done|].
  cbn [setitem]. rewrite (fmap_cons fst (k', v') d). cbn [fst].
  destruct (decide (k = k')) as [->|Hne].
  - rewrite fmap_cons. cbn [fst]. by rewrite decide_True by left.
  - rewrite fmap_cons, IH. cbn [fst].
    destruct (decide (k ∈ d.*1)) as [Hin|Hin].
    + by rewrite decide_True by (by right).
    + rewrite decide_False; [done|].
      by intros [?|?]%elem_of_cons.
Qed.

Lemma foldl_ext_elem {A B} (f g : B → A → B) (l : list A) :
  (∀ x, x ∈ l → ∀ b, f b x = g b x) → ∀ b, foldl f b l = foldl g b l.
Proof.
  induction l as [|x l IH]; intros Hfg b; [done|]. cbn [foldl].
  rewrite Hfg by left. apply IH. intros y Hy. apply Hfg. by right.
Qed.

Lemma gap_loop_keys K C D : ∀ g0 m0,
  NoDup D → (∀ s, s ∈ D → s ∉ keys g0) →
  keys (foldl (gap_step K C) (g0, m0) D).1
  = keys g0 ++ filter (λ s, missing_for K C s ≠ []) D.
Proof.
  induction D as [|a D IH]; intros g0 m0 HD Hfresh; cbn [foldl].
  - by rewrite app_nil_r.
  - apply NoDup_cons in HD as [Ha HD]. rewrite gap_step_missing_for, filter_cons.
    destruct (missing_for K C a) as [|c ms] eqn:Hm.
    + rewrite decide_False by (by intros ?). apply IH; [done|].
      intros s Hs. apply Hfresh. by right.
    + rewrite decide_True by done. rewrite IH; [|done|].
      * rewrite keys_setitem, decide_False by (apply Hfresh; left).
        by rewrite <- app_assoc.
      * intros s Hs. rewrite keys_setitem, decide_False by (apply Hfresh; left).
        rewrite elem_of_app, list_elem_of_singleton.
        intros [Hin| ->]; [|done]. revert Hin. apply Hfresh. by right.
Qed.

Lemma gap_loop_keys_nodup K C D : ∀ g0 m0,
  NoDup (keys g0) → NoDup (keys (foldl (gap_step K C) (g0, m0) D).1).
Proof.
  induction D as [|a D IH]; intros g0 m0 Hg0; cbn [foldl]; [done|].
  rewrite gap_step_missing_for.
  destruct (missing_for K C a) as [|c ms]; [by apply IH|].
  apply IH. rewrite keys_setitem. case_decide as Hin; [done|].
  apply NoDup_app. split; [done|]. split; [|apply NoDup_singleton].
  intros x Hx ->%list_elem_of_singleton. done.
Qed.

Lemma gap_loop_get_Some K C D s l :
  get s (gap_loop K C D).1 = Some l
  ↔ s ∈ D ∧ l ≠ [] ∧ l = missing_for K C s.
Proof.
  unfold gap_loop. rewrite gap_loop_get. simpl.
  destruct (decide (s ∈ D ∧ missing_for K C s ≠ [])) as [[Hs Hne]|Hn].
  - split; [intros [= <-]; done | intros (_ & _ & ->); done].
  - split; [done|]. intros (Hs & Hne & ->). tauto.
Qed.

Lemma missing_for_sublist K C s entry :
  get s K = Some entry → missing_for K C s `sublist_of` required_checks entry.
Proof.
  intros H. unfold missing_for. rewrite H. apply missing_checks_of_sublist.
Qed.

(** X4. The two outputs of gap analysis agree: the aggregate list holds
    exactly the checks that stand in some entry of the gap map. *)
Theorem gap_analysis_aggregate_is_union (K : dict symptom_spec)
    (data : request_json) :
  ∃ g m,
    gap_analysis K data
    = analysis_response g m (default [] (detected_symptoms data))
    ∧ ∀ check, check ∈ m ↔ ∃ s l, get s g = Some l ∧ check ∈ l.
Proof.
  rewrite gap_analysis_unfold. eexists _, _. split; [done|].
  intros check. rewrite elem_of_list_of_set. unfold gap_loop at 1.
  rewrite gap_loop_missing. simpl. rewrite list_elem_of_bind. split.
  - intros (s & Hcheck & Hs).
    exists s, (missing_for K (default [] (covered_fields data)) s).
    split; [|done]. apply gap_loop_get_Some. split; [done|].
    split; [|done]. intros Hnil. rewrite Hnil in Hcheck.
    by apply not_elem_of_nil in Hcheck.
  - intros (s & l & Hget & Hcheck).
    apply gap_loop_get_Some in Hget as (Hs & _ & ->). eauto.
Qed.

(** X5. The gap map is well formed: no key twice, and a symptom is a key
    exactly when it is detected, known to the knowledge base, and has a
    required check outside its coverage; its entry is then a non-empty
    selection, in order, of its required checks, none of them covered. *)
Theorem gap_analysis_gap_map (K : dict symptom_spec) (data : request_json) :
  let D := default [] (detected_symptoms data) in
  let C := default [] (covered_fields data) in
  ∃ g m,
    gap_analysis K data = analysis_response g m D
    ∧ NoDup (keys g)
    ∧ (∀ s, s ∈ keys g
         ↔ s ∈ D ∧ ∃ entry check, get s K = Some entry
             ∧ check ∈ required_checks entry
             ∧ check ∉ default [] (get s C))
    ∧ (∀ s l, get s g = Some l →
         l ≠ []
         ∧ ∃ entry, get s K = Some entry
             ∧ l `sublist_of` required_checks entry
             ∧ ∀ check, check ∈ l → check ∉ default [] (get s C)).
Proof.
  intros D C. rewrite gap_analysis_unfold. fold D C. eexists _, _.
  split; [done|]. split; [by apply gap_loop_keys_nodup, NoDup_nil|].
  assert (Hmem : ∀ s check, check ∈ missing_for K C s
            ↔ ∃ entry, get s K = Some entry
                ∧ check ∈ required_checks entry
                ∧ check ∉ default [] (get s C)).
  { intros s check. unfold missing_for.
    destruct (get s K) as [entry|].
    - rewrite missing_checks_of_spec. split.
      + intros [? ?]. eauto.
      + intros (? & [= <-] & ? & ?). done.
    - split; [by intros ?%not_elem_of_nil | by intros (? & ? & _)]. }
  split.
  - intros s. split.
    + intros Hkey. destruct (get s (gap_loop K C D).1) as [l|] eqn:Hget.
      * apply gap_loop_get_Some in Hget as (Hs & Hne & ->). split; [done|].
        destruct (missing_for K C s) as [|check l] eqn:Hm; [done|].
        destruct (proj1 (Hmem s check)) as (entry & ? & ? & ?);
          [rewrite Hm; left | eauto].
      * by apply get_None_keys in Hget.
    + intros (Hs & entry & check & Hentry & Hreq & Hcov).
      apply (get_Some_keys _ (missing_for K C s)), gap_loop_get_Some.
      split; [done|]. split; [|done]. intros Hnil.
      assert (Hin : check ∈ missing_for K C s) by (apply Hmem; eauto).
      rewrite Hnil in Hin. by apply not_elem_of_nil in Hin.
  - intros s l (Hs & Hne & ->)%gap_loop_get_Some. split; [done|].
    destruct (missing_for K C s) as [|check l] eqn:Hm; [done|].
    destruct (proj1 (Hmem s check)) as (entry & Hentry & _);
      [rewrite Hm; left|].
    exists entry. split; [done|]. rewrite <- Hm.
    split; [by apply missing_for_sublist|].
    intros c Hc. apply Hmem in Hc as (entry' & _ & _ & ?). done.
Qed.

Lemma gap_analysis_gap_map_witness :
  ∃ g m,
    gap_analysis Sample.kb
      (analysis_request ["fever"; "rash"] [("fever", ["duration"])])
    = analysis_response g m ["fever"; "rash"]
    ∧ get "fever" g = Some ["temperature"]
    ∧ "fever" ∈ keys g.
Proof.
  destruct (gap_analysis_gap_map Sample.kb
              (analysis_request ["fever"; "rash"] [("fever", ["duration"])]))
    as (g & m & Hresp & _ & Hkeys & _).
  exists g, m. split; [exact Hresp|].
  split.
  - vm_compute in Hresp. injection Hresp as <- <-. reflexivity.
  - apply Hkeys. split; [left|].
    exists {| required_checks := ["duration"; "temperature"] |}, "temperature".
    split; [reflexivity|]. split; [right; left|].
    apply (bool_decide_unpack _). vm_compute. exact I.
Defined.

(** X7. More coverage never opens a gap: when every check covered under
    [C] is covered under [C'], each entry of the gap map under [C'] is
    taken, in order, from the entry of the same symptom under [C], and the
    aggregate list under [C'] lies within the one under [C]. *)
Theorem gap_analysis_coverage_monotone (K : dict symptom_spec)
    (C C' : dict (list string)) (D : list string) :
  (∀ s check, check ∈ default [] (get s C) → check ∈ default [] (get s C')) →
  ∃ g m g' m',
    gap_analysis K (analysis_request D C) = analysis_response g m D
    ∧ gap_analysis K (analysis_request D C') = analysis_response g' m' D
    ∧ (∀ s l', get s g' = Some l' →
         ∃ l, get s g = Some l ∧ l' `sublist_of` l)
    ∧ m' ⊆ m.
Proof.
  intros HC. rewrite !gap_analysis_unfold. simpl. eexists _, _, _, _.
  split; [done|]. split; [done|].
  assert (Hsub : ∀ s, missing_for K C' s `sublist_of` missing_for K C s).
  { intros s. unfold missing_for. destruct (get s K) as [entry|]; [|done].
    apply filter_sublist_impl. intros check _ Hc Hin. apply Hc. by apply HC. }
  split.
  - intros s l' (Hs & Hne & ->)%gap_loop_get_Some.
    exists (missing_for K C s). split; [|apply Hsub].
    apply gap_loop_get_Some. split; [done|]. split; [|done].
    intros Hnil. specialize (Hsub s). rewrite Hnil in Hsub.
    by apply Hne, sublist_nil_r.
  - intros check. rewrite !elem_of_list_of_set. unfold gap_loop.
    rewrite !gap_loop_missing. simpl. rewrite !list_elem_of_bind.
    intros (s & Hcheck & Hs). exists s. split; [|done].
    exact (sublist_subseteq _ _ (Hsub s) check Hcheck).
Qed.

Lemma gap_analysis_coverage_monotone_witness :
  ∃ g m g' m',
    gap_analysis Sample.kb (analysis_request ["fever"] [])
    = analysis_response g m ["fever"]
    ∧ gap_analysis Sample.kb
        (analysis_request ["fever"] [("fever", ["duration"])])
      = analysis_response g' m' ["fever"]
    ∧ m' ⊆ m.
Proof.
  destruct (gap_analysis_coverage_monotone Sample.kb []
              [("fever", ["duration"])] ["fever"])
    as (g & m & g' & m' & H1 & H2 & _ & Hm).
  - intros s check Hin. by apply not_elem_of_nil in Hin.
  - exists g, m, g', m'. split; [exact H1|]. split; [exact H2 | exact Hm].
Defined.

(** X8. Gap analysis reads the coverage as sets, and only at the detected
    symptoms of the knowledge base and their required checks: two coverage
    maps that agree there give the same answer, whatever else they hold. *)
Theorem gap_analysis_coverage_relevant (K : dict symptom_spec)
    (C C' : dict (list string)) (D : list string) :
  (∀ s entry check,
     s ∈ D → get s K = Some entry → check ∈ required_checks entry →
     (check ∈ default [] (get s C) ↔ check ∈ default [] (get s C'))) →
  gap_analysis K (analysis_request D C) = gap_analysis K (analysis_request D C').
Proof.
  intros HC. rewrite !gap_analysis_unfold. simpl.
  assert (Hloop : gap_loop K C D = gap_loop K C' D); [|by rewrite Hloop].
  unfold gap_loop. apply foldl_ext_elem. intros s Hs [g m].
  rewrite !gap_step_missing_for.
  assert (Hm : missing_for K C s = missing_for K C' s); [|by rewrite Hm].
  unfold missing_for. destruct (get s K) as [entry|] eqn:Hentry; [|done].
  apply filter_ext_elem. intros check Hreq.
  by rewrite (HC s entry check Hs Hentry Hreq).
Qed.

Lemma gap_analysis_coverage_relevant_witness :
  gap_analysis Sample.kb
    (analysis_request ["fever"] [("fever", ["duration"])])
  = gap_analysis Sample.kb
      (analysis_request ["fever"]
         [("rash", ["itch"]); ("fever", ["mood"; "duration"; "duration"])]).
Proof.
  apply gap_analysis_coverage_relevant.
  intros s entry check Hs Hentry Hreq.
  apply list_elem_of_singleton in Hs as ->.
  injection Hentry as <-. simpl in Hreq.
  apply elem_of_cons in Hreq as [->|Hreq].
  - split; intros _; apply (bool_decide_unpack _); vm_compute; exact I.
  - apply list_elem_of_singleton in Hreq as ->.
    split; intros H; exfalso; revert H;
      apply (bool_decide_unpack _); vm_compute; exact I.
Defined.

(** ** The pipeline *)


Lemma transcription_cases (w : world) (audio : list byte) :
  transcription_fails w audio ∨ ∃ t, transcribed w audio t.
Proof.
  unfold transcription_fails, transcribed.
  destruct (transcriber_transcribe w audio) as [[e|[[|c t]|]]|e]; eauto.
Qed.

Lemma generation_cases (w : world) (prompt : string) :
  (∃ e, generation_fails w prompt e) ∨ (∃ txt, generation_returns w prompt txt).
Proof.
  unfold generation_fails, generation_returns.
  destruct (generate_content w prompt) as [r|e] eqn:Hr; [|eauto].
  destruct (text r) as [txt|e] eqn:Ht; eauto 10.
Qed.



(** X10. The pipeline always answers and never lets an exception out: the
    answer has status 200 and [success = true], or status 500 and
    [success = false] with an error text, or, when the request holds no
    audio, status 400 with an error text. *)
Theorem process_interview_always_answers (w : world)
    (audio : option (list byte)) :
  ∃ r tr,
    run (process_interview w audio) = (Ok r, tr)
    ∧ ((status r = 200 ∧ get "success" (body r) = Some (JBool true)
        ∧ get "error" (body r) = None)
       ∨ (status r = 500 ∧ get "success" (body r) = Some (JBool false)
          ∧ ∃ e, get "error" (body r) = Some (JStr e))
       ∨ (status r = 400 ∧ audio = None ∧ get "success" (body r) = None
          ∧ get "error" (body r) = Some (JStr "No audio file provided"))).
Proof.
  destruct audio as [audio|].
  - destruct (transcription_cases w audio) as [Hfail|[t Ht]].
    + eexists _, _. split; [by apply process_interview_no_transcript|].
      right; left. repeat split; eauto.
    + destruct (generation_cases w (prompt_of_transcript w t))
        as [[e He]|[txt Htxt]].
      * eexists _, _.
        split; [by apply (process_interview_generation_failed w audio t e)|].
        right; left. repeat split; eauto.
      * eexists _, _.
        split; [by apply (process_interview_answer w audio t txt)|].
        left. repeat split.
  - eexists _, _. split; [reflexivity|]. right; right. repeat split.
Qed.


(** ** Stripping and splitting *)

Lemma length_append (a b : string) :
  String.length (a +:+ b) = String.length a + String.length b.
Proof.
  induction a as [|c a IH]; [done|]. rewrite append_cons. simpl. by rewrite IH.
Qed.

Lemma length_slice_to (n : nat) (s : string) : String.length (slice_to n s) ≤ n.
Proof.
  revert s; induction n as [|n IH]; intros [|c s]; simpl; try lia.
  specialize (IH s). lia.
Qed.

Lemma rstrip_cons (c : ascii) (s : string) :
  rstrip (String c s)
  = match rstrip s with
    | EmptyString => if isspace c then EmptyString else String c EmptyString
    | r => String c r
    end.
Proof. reflexivity. Qed.

Lemma rstrip_idem (s : string) : rstrip (rstrip s) = rstrip s.
Proof.
  induction s as [|c s IH]; [done|]. rewrite rstrip_cons.
  destruct (rstrip s) as [|d r] eqn:Hr.
  - destruct (isspace c) eqn:Hc; [done|]. rewrite rstrip_cons. simpl.
    by rewrite Hc.
  - rewrite rstrip_cons, IH. done.
Qed.

Lemma rstrip_suffix (a b : string) :
  rstrip (a +:+ b) = a +:+ b → b ≠ EmptyString → rstrip b = b.
Proof.
  intros Hab Hb. induction a as [|c a IH]; [done|]. apply IH.
  rewrite append_cons, rstrip_cons in Hab.
  destruct (rstrip (a +:+ b)) as [|d r] eqn:Hr.
  - destruct (isspace c); [done|]. injection Hab as Hab.
    destruct a; [|done]. rewrite append_nil in Hab. by subst b.
  - by injection Hab.
Qed.

Lemma rstrip_fixed_lstrip (b : string) :
  rstrip b = b → b ≠ EmptyString → lstrip b ≠ EmptyString.
Proof.
  induction b as [|c b IH]; intros Hfix Hne; [done|]. simpl.
  destruct (isspace c) eqn:Hc; [|done].
  rewrite rstrip_cons, Hc in Hfix.
  destruct (rstrip b) as [|d r] eqn:Hr; [done|].
  injection Hfix as Hfix. apply IH; [done|]. by rewrite <- Hfix.
Qed.

Lemma lstrip_suffix (s : string) : ∃ p, s = p +:+ lstrip s.
Proof.
  induction s as [|c s [p IH]]; [by exists EmptyString|]. simpl.
  destruct (isspace c).
  - exists (String c p). by rewrite append_cons, <- IH.
  - by exists EmptyString.
Qed.

Lemma rstrip_prefix (s : string) : ∃ q, s = rstrip s +:+ q.
Proof.
  induction s as [|c s [q IH]]; [by exists EmptyString|]. rewrite rstrip_cons.
  destruct (rstrip s) as [|d r] eqn:Hr.
  - destruct (isspace c).
    + by exists (String c s).
    + exists q. by rewrite append_cons, <- IH.
  - exists q. by rewrite append_cons, <- IH.
Qed.

Lemma lstrip_head (s : string) :
  lstrip s = EmptyString ∨ ∃ c r, lstrip s = String c r ∧ isspace c = false.
Proof.
  induction s as [|c s IH]; [by left|]. simpl.
  destruct (isspace c) eqn:Hc; [done | right; eauto].
Qed.

Lemma strip_idem (s : string) : strip (strip s) = strip s.
Proof.
  unfold strip. destruct (lstrip_head s) as [->|(c & r & -> & Hc)]; [done|].
  assert (Hl : lstrip (rstrip (String c r)) = rstrip (String c r)).
  { rewrite rstrip_cons. destruct (rstrip r); rewrite ?Hc; simpl;
      by rewrite ?Hc. }
  by rewrite Hl, rstrip_idem.
Qed.

Lemma strip_occurs (s : string) : occurs_in (strip s) s.
Proof.
  unfold strip. destruct (lstrip_suffix s) as [p Hp].
  destruct (rstrip_prefix (lstrip s)) as [q Hq].
  exists p, q. by rewrite <- Hq.
Qed.

(** A non-empty end of a stripped string keeps something when stripped. *)
Lemma strip_of_suffix (s a b : string) :
  rstrip s = s → s = a +:+ b → b ≠ EmptyString → strip b ≠ EmptyString.
Proof.
  intros Hs -> Hb. pose proof (rstrip_suffix a b Hs Hb) as Hfix.
  pose proof (rstrip_fixed_lstrip b Hfix Hb) as Hl.
  destruct (lstrip_suffix b) as [p Hp]. unfold strip.
  rewrite (rstrip_suffix p (lstrip b)); [done| |done]. by rewrite <- Hp.
Qed.

Lemma split1_suffix (sep : ascii) (s rest : string) :
  split1 sep s !! 1 = Some rest → ∃ a, s = a +:+ String sep rest.
Proof.
  revert rest. induction s as [|c s IH]; intros rest; [done|]. simpl.
  case_decide as Hc.
  - intros [= <-]. subst c. by exists EmptyString.
  - destruct (split1 sep s) as [|h t] eqn:Hs; [done|]. simpl. intros Ht.
    destruct (IH rest Ht) as [a ->]. by exists (String c a).
Qed.

(** [split1] cuts at the first separator: what follows it is at least
    what follows any other. *)
Lemma split1_first (sep : ascii) (x z rest : string) :
  split1 sep (x +:+ String sep z) !! 1 = Some rest →
  String.length z ≤ String.length rest.
Proof.
  induction x as [|c x IH]; rewrite ?append_nil, ?append_cons; simpl.
  - rewrite decide_True by done. by intros [= <-].
  - case_decide as Hc.
    + intros [= <-]. rewrite length_append. simpl. lia.
    + destruct (split1 sep (x +:+ String sep z)) as [|h t]; [done|]. apply IH.
Qed.

Lemma split_no_sep (sep : ascii) (s piece : string) :
  piece ∈ split sep s → any_char (λ c, bool_decide (c = sep)) piece = false.
Proof.
  revert piece. induction s as [|c s IH]; intros piece; simpl.
  - by intros ->%list_elem_of_singleton.
  - case_decide as Hc.
    + intros [->|Hin]%elem_of_cons; [done | by apply IH].
    + destruct (split sep s) as [|h t] eqn:Hs.
      * intros ->%list_elem_of_singleton. simpl.
        by rewrite bool_decide_eq_false_2.
      * intros [->|Hin]%elem_of_cons.
        -- simpl. rewrite bool_decide_eq_false_2 by done. apply IH. left.
        -- apply IH. by right.
Qed.

Lemma split_head_prefix (sep : ascii) (s h : string) (t : list string) :
  split sep s = h :: t → ∃ b, s = h +:+ b.
Proof.
  revert h t. induction s as [|c s IH]; intros h t; simpl.
  - intros [= <- <-]. by exists EmptyString.
  - case_decide as Hc.
    + intros [= <- <-]. by exists (String c s).
    + destruct (split sep s) as [|h' t'] eqn:Hs.
      * intros [= <- <-]. by exists s.
      * intros [= <- <-]. destruct (IH h' t' eq_refl) as [b ->]. by exists b.
Qed.

Lemma split_occurs (sep : ascii) (s piece : string) :
  piece ∈ split sep s → occurs_in piece s.
Proof.
  revert piece. induction s as [|c s IH]; intros piece; simpl.
  - intros ->%list_elem_of_singleton. by exists EmptyString, EmptyString.
  - case_decide as Hc.
    + intros [->|Hin]%elem_of_cons.
      * by exists EmptyString, (String c s).
      * destruct (IH piece Hin) as (a & b & ->). by exists (String c a), b.
    + destruct (split sep s) as [|h t] eqn:Hs.
      * intros ->%list_elem_of_singleton. by exists EmptyString, s.
      * intros [->|Hin]%elem_of_cons.
        -- destruct (split_head_prefix sep s h t Hs) as [b ->].
           by exists EmptyString, b.
        -- destruct (IH piece) as (a & b & ->); [by right|].
           by exists (String c a), b.
Qed.

(** ** The questions that parsing yields *)

Lemma strip_fixed (line : string) : rstrip (strip line) = strip line.
Proof. unfold strip. apply rstrip_idem. Qed.

Lemma nonempty_true (s : string) : nonempty s = true ↔ s ≠ EmptyString.
Proof. by destruct s. Qed.

Lemma occurs_in_refl (s : string) : occurs_in s s.
Proof.
  exists EmptyString, EmptyString. rewrite append_nil.
  induction s as [|c s IH]; [done|]. by rewrite append_cons, <- IH.
Qed.

(** What is left of a stripped line of more than 5 characters, numbering
    cut or not, is a non-empty stripped piece of the line. *)
Lemma strip_numbering_kept (L : string) :
  rstrip L = L → strip L = L → 5 < String.length L →
  strip_numbering L ≠ EmptyString
  ∧ strip (strip_numbering L) = strip_numbering L
  ∧ occurs_in (strip_numbering L) L.
Proof.
  intros Hr Hs Hlen. destruct L as [|c l]; [simpl in Hlen; lia|].
  unfold strip_numbering.
  destruct (isdigit c && contains "." (slice_to 3 (String c l))) eqn:Hnum.
  2: { split; [done|]. split; [done | apply occurs_in_refl]. }
  apply andb_true_iff in Hnum as [_ Hdot].
  destruct (split1_dot _ _ Hdot) as [h Hh]. rewrite Hh. cbn [default].
  change (id h) with h.
  destruct (split1_suffix _ _ _ Hh) as [a Ha].
  assert (Hne : h ≠ EmptyString).
  { apply contains_spec in Hdot as (x & y & Hxy).
    destruct (slice_to_prefix 3 (String c l)) as [r Hpre].
    pose proof (length_slice_to 3 (String c l)) as Hle.
    assert (HL : String c l = x +:+ String "." (y +:+ r)).
    { rewrite Hpre at 1. rewrite Hxy. by rewrite !append_assoc. }
    rewrite HL in Hh. apply split1_first in Hh.
    rewrite Hxy in Hle. rewrite HL in Hlen.
    rewrite !length_append in *. simpl in *. rewrite !length_append in *.
    intros ->. simpl in Hh. lia. }
  assert (Hsuf : String c l = (a +:+ ".") +:+ h).
  { rewrite Ha. by rewrite append_assoc. }
  split; [by eapply strip_of_suffix|]. split; [apply strip_idem|].
  eapply occurs_in_trans; [apply strip_occurs|].
  exists (a +:+ "."), EmptyString. rewrite Hsuf.
  clear. generalize (a +:+ "."). intros p.
  induction p as [|x p IH]; simpl.
  - rewrite !append_nil. induction h as [|y h IH]; [done|].
    by rewrite append_cons, <- IH.
  - by rewrite !append_cons, <- IH.
Qed.

Lemma question_of_line_spec (line : string) :
  question_of_line line
  = if (5 <? String.length (strip line))%nat
    then Some (strip_numbering (strip line)) else None.
Proof.
  unfold question_of_line. cbv zeta.
  destruct (5 <? String.length (strip line))%nat eqn:Hlen.
  - apply Nat.ltb_lt in Hlen.
    destruct (strip_numbering_kept (strip line)) as (Hne & _);
      [apply strip_fixed | apply strip_idem | done |].
    assert (Hl : nonempty (strip line) = true).
    { apply nonempty_true. intros Hnil. rewrite Hnil in Hlen. simpl in Hlen. lia. }
    rewrite Hl. simpl. by rewrite (proj2 (nonempty_true _) Hne).
  - by rewrite andb_false_r.
Qed.

Lemma question_of_line_Some (line q : string) :
  question_of_line line = Some q →
  q ≠ EmptyString ∧ strip q = q ∧ occurs_in q line.
Proof.
  rewrite question_of_line_spec.
  destruct (5 <? String.length (strip line))%nat eqn:Hlen; [|done].
  apply Nat.ltb_lt in Hlen. intros [= <-].
  destruct (strip_numbering_kept (strip line)) as (Hne & Hs & Hocc);
    [apply strip_fixed | apply strip_idem | done |].
  split; [done|]. split; [done|].
  eapply occurs_in_trans; [exact Hocc | apply strip_occurs].
Qed.

Lemma any_char_occurs (f : ascii → bool) (p s : string) :
  occurs_in p s → any_char f s = false → any_char f p = false.
Proof.
  intros (a & b & ->). rewrite !any_char_app.
  by intros [_ [? _]%orb_false_iff]%orb_false_iff.
Qed.

(** X12. Every question that the parsing loop yields is a piece of the
    generated text: it is cut out of it as it stands, is not empty, has no
    white space at either end and no line break inside. *)
Theorem parsed_questions_well_formed (response_text : string) :
  ∃ questions,
    run (parse_questions response_text) = (Ok questions, [])
    ∧ ∀ q, q ∈ questions →
        q ≠ EmptyString
        ∧ strip q = q
        ∧ any_char (λ c, bool_decide (c = ascii_of_nat 10)) q = false
        ∧ occurs_in q response_text.
Proof.
  exists (questions_of_text response_text).
  split; [apply parse_questions_total|].
  intros q. unfold questions_of_text. rewrite list_elem_of_omap.
  intros (line & Hline & (Hne & Hs & Hocc)%question_of_line_Some).
  split; [done|]. split; [done|]. split.
  - eapply any_char_occurs; [exact Hocc|]. by eapply split_no_sep.
  - eapply occurs_in_trans; [exact Hocc|].
    eapply occurs_in_trans; [by eapply split_occurs | apply strip_occurs].
Qed.

(** X13. A line gives a question exactly when it has more than 5
    characters once stripped; the later test for an empty rest never
    drops one.  So the text yields as many questions as it has such
    lines. *)
Theorem parse_line_keeps_long_lines (questions : list string) (line : string) :
  (∃ qs, run (parse_line questions line) = (Ok qs, [])
     ∧ ((5 < String.length (strip line) ∧ ∃ q, qs = questions ++ [q])
        ∨ (String.length (strip line) ≤ 5 ∧ qs = questions)))
  ∧ ∀ response_text, ∃ qs,
      run (parse_questions response_text) = (Ok qs, [])
      ∧ length qs
        = length (filter (λ l, 5 < String.length (strip l))
                    (split (ascii_of_nat 10) (strip response_text))).
Proof.
  split.
  - eexists. split; [apply parse_line_total|].
    rewrite question_of_line_spec.
    destruct (5 <? String.length (strip line))%nat eqn:Hlen.
    + apply Nat.ltb_lt in Hlen. left. split; [done|]. eauto.
    + apply Nat.ltb_ge in Hlen. right. split; [done|]. apply app_nil_r.
  - intros response_text. eexists. split; [apply parse_questions_total|].
    unfold questions_of_text.
    induction (split (ascii_of_nat 10) (strip response_text)) as [|l ls IH];
      [done|].
    rewrite filter_cons. cbn [omap list_omap]. rewrite question_of_line_spec.
    destruct (5 <? String.length (strip l))%nat eqn:Hlen.
    + apply Nat.ltb_lt in Hlen. rewrite decide_True by done.
      simpl. by rewrite IH.
    + apply Nat.ltb_ge in Hlen. rewrite decide_False by lia. exact IH.
Qed.

Lemma digit_not_dot (d : ascii) : isdigit d = true → d ≠ "."%char.
Proof. by intros Hd ->. Qed.

Lemma strip_numbering_one (d : ascii) (rest : string) :
  isdigit d = true →
  strip_numbering (String d (String "." rest)) = strip rest.
Proof.
  intros Hd. pose proof (digit_not_dot d Hd) as Hne.
  unfold strip_numbering. rewrite Hd. cbn [slice_to contains startswith].
  rewrite (bool_decide_eq_true_2 ("."%char = "."%char)) by done.
  rewrite orb_true_r. cbn [andb split1].
  rewrite decide_False, decide_True by done. done.
Qed.

Lemma strip_numbering_two (d1 d2 : ascii) (rest : string) :
  isdigit d1 = true → isdigit d2 = true →
  strip_numbering (String d1 (String d2 (String "." rest))) = strip rest.
Proof.
  intros Hd1 Hd2. pose proof (digit_not_dot d1 Hd1) as Hne1.
  pose proof (digit_not_dot d2 Hd2) as Hne2.
  unfold strip_numbering. rewrite Hd1. cbn [slice_to contains startswith].
  rewrite (bool_decide_eq_true_2 ("."%char = "."%char)) by done.
  rewrite !orb_true_r. cbn [andb split1].
  rewrite (decide_False (P := d1 = "."%char)) by done.
  rewrite (decide_False (P := d2 = "."%char)) by done.
  rewrite decide_True by done. done.
Qed.

Lemma strip_numbering_no_dot (c1 c2 c3 : ascii) (rest : string) :
  c1 ≠ "."%char → c2 ≠ "."%char → c3 ≠ "."%char →
  strip_numbering (String c1 (String c2 (String c3 rest)))
  = String c1 (String c2 (String c3 rest)).
Proof.
  intros H1 H2 H3. unfold strip_numbering. cbn [slice_to contains startswith].
  rewrite !bool_decide_eq_false_2 by congruence.
  by rewrite andb_false_r.
Qed.

(** X14. Which numbering the parsing loop removes from a line of more than
    5 characters (once stripped): a leading one-digit or two-digit number
    with its dot goes, and the rest is stripped; a line whose first three
    characters hold no dot (a number of three digits, say) or whose first
    character is no digit stays whole. *)
Theorem parse_line_numbering (questions : list string) (line : string) :
  5 < String.length (strip line) →
  (∀ d rest, isdigit d = true →
     strip line = String d (String "." rest) →
     run (parse_line questions line) = (Ok (questions ++ [strip rest]), []))
  ∧ (∀ d1 d2 rest, isdigit d1 = true → isdigit d2 = true →
       strip line = String d1 (String d2 (String "." rest)) →
       run (parse_line questions line) = (Ok (questions ++ [strip rest]), []))
  ∧ (∀ c1 c2 c3 rest,
       c1 ≠ "."%char → c2 ≠ "."%char → c3 ≠ "."%char →
       strip line = String c1 (String c2 (String c3 rest)) →
       run (parse_line questions line) = (Ok (questions ++ [strip line]), []))
  ∧ (∀ c rest, isdigit c = false →
       strip line = String c rest →
       run (parse_line questions line) = (Ok (questions ++ [strip line]), [])).
Proof.
  intros Hlen. apply Nat.ltb_lt in Hlen.
  assert (Hrun : run (parse_line questions line)
                 = (Ok (questions ++ [strip_numbering (strip line)]), [])).
  { unfold run. by rewrite parse_line_total, question_of_line_spec, Hlen. }
  rewrite Hrun. repeat split.
  - intros d rest Hd HL. by rewrite HL, strip_numbering_one.
  - intros d1 d2 rest Hd1 Hd2 HL. by rewrite HL, strip_numbering_two.
  - intros c1 c2 c3 rest H1 H2 H3 HL.
    by rewrite HL, strip_numbering_no_dot.
  - intros c rest Hc HL. rewrite HL. unfold strip_numbering. by rewrite Hc.
Qed.

Lemma parse_line_numbering_witness :
  run (parse_line [] "12. Where does it hurt?") = (Ok ["Where does it hurt?"], [])
  ∧ run (parse_line [] "100. Any fever today?")
    = (Ok ["100. Any fever today?"], []).
Proof.
  split.
  - apply (proj1 (proj2 (parse_line_numbering [] "12. Where does it hurt?"
                           ltac:(vm_compute; lia)))
             "1"%char "2"%char " Where does it hurt?"); reflexivity.
  - apply (proj1 (proj2 (proj2 (parse_line_numbering []
                           "100. Any fever today?" ltac:(vm_compute; lia))))
             "1"%char "0"%char "0"%char ". Any fever today?");
      try discriminate; reflexivity.
Defined.

(** ** The question-generation operation *)

(** X15. The question-generation operation always answers with status 200
    and a list of at least one and at most five questions, and it calls the
    text generator at most once; [success] is [false] only with the
    fallback question of a failed generation. *)
Theorem generate_questions_always_answers (w : world) (data : request_json) :
  ∃ r tr qs,
    run (generate_questions w data) = (Ok r, tr)
    ∧ status r = 200
    ∧ get "questions" (body r) = Some (JList qs)
    ∧ 1 ≤ length qs ≤ 5
    ∧ (tr = [] ∨ ∃ prompt, tr = [CallGemini prompt])
    ∧ (get "success" (body r) = Some (JBool true)
       ∨ (get "success" (body r) = Some (JBool false)
          ∧ qs = ["Unable to generate questions at this time"])).
Proof.
  destruct data as [D C G T].
  assert (Hguard : ∀ d, default [] D = [] ∨ default [] G = [] →
            d = {| detected_symptoms := D; covered_fields := C;
                   gaps := G; transcript := T |} →
            ∃ r tr qs,
              run (generate_questions w d) = (Ok r, tr)
              ∧ status r = 200
              ∧ get "questions" (body r) = Some (JList qs)
              ∧ 1 ≤ length qs ≤ 5
              ∧ (tr = [] ∨ ∃ prompt, tr = [CallGemini prompt])
              ∧ (get "success" (body r) = Some (JBool true)
                 ∨ (get "success" (body r) = Some (JBool false)
                    ∧ qs = ["Unable to generate questions at this time"]))).
  { intros d Hempty ->. eexists _, _, _.
    split; [by apply generate_questions_without_input|].
    repeat split; simpl; eauto; lia. }
  destruct (default [] D) as [|s D'] eqn:HD; [by eapply Hguard; eauto|].
  destruct (default [] G) as [|g G'] eqn:HG; [by eapply Hguard; eauto|].
  clear Hguard.
  assert (Hrun : ∀ res tr,
            run (generate_questions w
                   (questions_request (s :: D') (g :: G')
                      (default EmptyString T))) = (res, tr) →
            run (generate_questions w
                   {| detected_symptoms := D; covered_fields := C;
                      gaps := G; transcript := T |}) = (res, tr)).
  { intros res tr <-. unfold run, generate_questions, questions_request.
    cbn [detected_symptoms gaps transcript]. rewrite HD, HG. reflexivity. }
  destruct (generation_cases w
              (questions_prompt w (s :: D') (g :: G') (default EmptyString T)))
    as [[e He]|[txt Htxt]].
  - eexists _, _, _. split.
    { apply Hrun. by apply generate_questions_generation_failed. }
    repeat split; simpl; eauto; lia.
  - eexists _, _, _. split.
    { apply Hrun. by apply (generate_questions_answer w _ _ _ txt). }
    split; [done|]. split; [reflexivity|]. split.
    + rewrite length_take. destruct (questions_of_text txt); cbn [length]; lia.
    + split; [eauto | by left].
Qed.

(** ** Transcription *)


(** X17. The [/transcribe] handler cannot succeed: the name
    [openai_client] that it reads is bound nowhere, so every request with
    an audio file is answered with status 500, [success = false] and the
    text of the name error, and a request without one with status 400.  No
    transcript is returned and no service is called. *)
Theorem transcribe_never_succeeds (audio : option (list byte)) :
  ∃ r,
    run (transcribe audio) = (Ok r, [])
    ∧ get "transcript" (body r) = None
    ∧ get "success" (body r) ≠ Some (JBool true)
    ∧ match audio with
      | Some _ =>
          r = ([("success", JBool false);
                ("error", JStr "name 'openai_client' is not defined")], 500)
      | None => r = ([("error", JStr "No audio file provided")], 400)
      end.
Proof. destruct audio; eexists; (split; [reflexivity|]); done. Qed.

(** ** Entity extraction *)

Lemma group_entity_run (entities : dict (list jv)) (ent : entity) tr :
  group_entity entities ent tr
  = (Ok (setitem (ent_label ent)
           (default [] (get (ent_label ent) entities) ++ [entity_json ent])
           entities),
     tr).
Proof.
  unfold group_entity, getitem. cbv zeta.
  destruct (get (ent_label ent) entities) as [group|] eqn:Hg.
  - by rewrite Hg.
  - rewrite get_setitem_eq.
    assert (Hset : ∀ (v v' : list jv) d,
              setitem (ent_label ent) v (setitem (ent_label ent) v' d)
              = setitem (ent_label ent) v d).
    { intros v v' d. induction d as [|[k x] d IH]; simpl.
      - by rewrite decide_True.
      - case_decide; simpl; [by rewrite decide_True|].
        rewrite decide_False by done. by rewrite IH. }
    unfold mbind, M_bind, mret, M_ret. by rewrite Hset.
Qed.

Lemma group_entities_run (ents : list entity) : ∀ entities tr,
  ∃ grouped,
    foldM group_entity entities ents tr = (Ok grouped, tr)
    ∧ ∀ label,
        get label grouped
        = match get label entities,
                entity_json <$> filter (λ e, ent_label e = label) ents with
          | None, [] => None
          | group, added => Some (default [] group ++ added)
          end.
Proof.
  induction ents as [|ent ents IH]; intros entities tr.
  - exists entities. split; [done|]. intros label. simpl.
    destruct (get label entities); [by rewrite app_nil_r | done].
  - destruct (IH (setitem (ent_label ent)
                    (default [] (get (ent_label ent) entities)
                     ++ [entity_json ent]) entities) tr)
      as (grouped & Hrun & Hget).
    exists grouped. split.
    { cbn [foldM]. by rewrite (bind_ok _ _ _ _ _ (group_entity_run _ _ _)). }
    intros label. rewrite Hget, filter_cons.
    destruct (decide (ent_label ent = label)) as [<-|Hne].
    + rewrite get_setitem_eq, fmap_cons. cbn [default].
      change (id ?x) with x. rewrite <- app_assoc. cbn [app].
      by destruct (get (ent_label ent) entities).
    + by rewrite get_setitem_ne.
Qed.

(** X18. What [/health] announces and what [/extract] does: when no spaCy
    model is loaded, [health] reports [keyword_matching] as the way of
    symptom extraction, and [extract_symptoms] answers every request with
    status 500 and "spaCy model not loaded", without matching any
    keyword. *)
Theorem extract_symptoms_needs_model (K : dict symptom_spec) (sv : services)
    (data : request_json) :
  get "symptom_extraction" (health sv).1 = Some (JS "keyword_matching") →
  nlp sv = None
  ∧ run (extract_symptoms K sv data)
    = (Ok ([("error", JS "spaCy model not loaded")], 500), []).
Proof.
  unfold health, extract_symptoms, run, try_except. simpl.
  destruct (nlp sv); [done|]. done.
Qed.

(** X19. With a model loaded, [extract_symptoms] rejects a missing or empty
    transcript with status 400; on any other transcript it reports the
    exception of a failing model under status 500, and otherwise answers
    with the symptoms that keyword detection finds in the transcript and
    with the entities grouped by label: each label that occurs maps to its
    entities in the order of the document, and no other label is a key. *)
Theorem extract_symptoms_answer (K : dict symptom_spec) (sv : services)
    (data : request_json) (model : string → result (list entity)) :
  nlp sv = Some model →
  let T := default EmptyString (transcript data) in
  (T = EmptyString →
     run (extract_symptoms K sv data)
     = (Ok ([("error", JS "No transcript provided")], 400), []))
  ∧ (T ≠ EmptyString → ∀ e, model T = Raised e →
       run (extract_symptoms K sv data)
       = (Ok ([("success", JB false); ("error", JS e)], 500), []))
  ∧ (T ≠ EmptyString → ∀ ents, model T = Ok ents →
       ∃ grouped,
         run (extract_symptoms K sv data)
         = (Ok ([("success", JB true);
                 ("detected_symptoms", JA (JS <$> detect K T));
                 ("entities", entities_json grouped);
                 ("transcript", JS T)], 200), [])
         ∧ ∀ label,
             get label grouped
             = match entity_json <$> filter (λ e, ent_label e = label) ents with
               | [] => None
               | group => Some group
               end).
Proof.
  intros Hnlp T. unfold run, extract_symptoms, try_except. rewrite Hnlp.
  cbv zeta. fold T. split; [by intros ->|]. split.
  - intros HT e He. apply nonempty_true in HT. rewrite HT.
    unfold mbind, M_bind, lift. by rewrite He.
  - intros HT ents Hents. apply nonempty_true in HT. rewrite HT.
    destruct (group_entities_run ents [] []) as (grouped & Hrun & Hget).
    exists grouped. split.
    + unfold mbind, M_bind, lift. by rewrite Hents, Hrun.
    + intros label. rewrite Hget. simpl.
      by destruct (entity_json <$> filter _ ents).
Qed.

Lemma extract_symptoms_needs_model_witness :
  run (extract_symptoms Sample.kb no_model
         {| detected_symptoms := None; covered_fields := None; gaps := None;
            transcript := Some Sample.heard |})
  = (Ok ([("error", JS "spaCy model not loaded")], 500), []).
Proof.
  apply (extract_symptoms_needs_model Sample.kb no_model). reflexivity.
Defined.

Lemma extract_symptoms_answer_witness :
  ∃ grouped,
    run (extract_symptoms Sample.kb toy_model
           {| detected_symptoms := None; covered_fields := None; gaps := None;
              transcript := Some Sample.heard |})
    = (Ok ([("success", JB true);
            ("detected_symptoms", JA [JS "chest_pain"; JS "fever"]);
            ("entities", entities_json grouped);
            ("transcript", JS Sample.heard)], 200), [])
    ∧ get "DURATION" grouped
      = Some [JO [("text", JS "three days"); ("label", JS "DURATION");
                  ("start", JN 22); ("end", JN 32)]].
Proof.
  destruct (extract_symptoms_answer Sample.kb toy_model
              {| detected_symptoms := None; covered_fields := None;
                 gaps := None; transcript := Some Sample.heard |}
              (λ _, Ok toy_entities) eq_refl) as (_ & _ & Hok).
  destruct (Hok ltac:(discriminate) toy_entities eq_refl)
    as (grouped & Hrun & Hget).
  exists grouped. split; [exact Hrun|]. rewrite Hget. reflexivity.
Defined.

(** ** Recording a symptom *)

(** X20. [record_symptom] asks for the key, not for a value: a request
    whose JSON body is [null] or an object is refused with status 400 and
    "symptom_name required" exactly when the body is [null] or has no key
    [symptom_name]; with the key present, whatever it holds, the answer is
    a success with status 200. *)
Theorem record_symptom_validation (sv : services) (data : option (dict jv)) :
  (record_symptom sv data = ([("error", JS "symptom_name required")], 400)
   ↔ ∀ d, data = Some d → get "symptom_name" d = None)
  ∧ ((record_symptom sv data).2 = 200
     ↔ ∃ d v, data = Some d ∧ get "symptom_name" d = Some v)
  ∧ ((record_symptom sv data).2 = 200
     → get "success" (record_symptom sv data).1 = Some (JB true)).
Proof.
  destruct data as [[|p d]|].
  - split; [|split].
    + split; [by intros _ d [= <-] | done].
    + split; [done | by intros (d & v & [= <-] & ?)].
    + done.
  - cbv beta iota delta [record_symptom].
    destruct (get "symptom_name" (p :: d)) as [v|] eqn:Hname.
    + split; [|split].
      * split; [done|]. intros H. specialize (H _ eq_refl). congruence.
      * split; [eauto | done].
      * done.
    + split; [|split].
      * split; [by intros _ d' [= <-] | done].
      * split; [done|]. intros (d' & v & [= <-] & ?). congruence.
      * done.
  - split; [|split].
    + split; [by intros _ d [=] | done].
    + split; [done | by intros (d & v & [=] & ?)].
    + done.
Qed.



Lemma record_symptom_validation_witness :
  (record_symptom no_model (Some [("symptom_name", JNull)])).2 = 200
  ∧ record_symptom no_model (Some [("duration", JS "3 days")])
    = ([("error", JS "symptom_name required")], 400).
Proof.
  split.
  - apply (proj1 (proj2 (record_symptom_validation no_model
                           (Some [("symptom_name", JNull)])))).
    exists [("symptom_name", JNull)], JNull. split; reflexivity.
  - apply (proj1 (record_symptom_validation no_model
                    (Some [("duration", JS "3 days")]))).
    intros d [= <-]. reflexivity.
Defined.


Lemma parsed_questions_well_formed_witness :
  ∃ questions,
    run (parse_questions "  3. How long has it lasted?  ")
    = (Ok questions, [])
    ∧ questions = ["How long has it lasted?"]
    ∧ strip "How long has it lasted?" = "How long has it lasted?".
Proof.
  destruct (parsed_questions_well_formed "  3. How long has it lasted?  ")
    as (questions & Hrun & Hall).
  exists questions. split; [exact Hrun|].
  assert (Hq : questions = ["How long has it lasted?"]).
  { vm_compute in Hrun. by injection Hrun as <-. }
  split; [exact Hq|].
  apply (Hall "How long has it lasted?"). rewrite Hq. left.
Defined.
